(** * tmail, package core: the outbound SMTP client (core/smtp_client.go)

    A shallow embedding of [smtpClient] and of [newSMTPClient], followed by
    the properties of the delivery engine that were checked against it.

    Conventions of the embedding.
    - Go [int] values are [Z]; Go strings are [string]; a [[]byte] is a list
      of bytes, and an option of one where the code compares it with [nil].
    - A Go [error] is an [option error]: [None] is [nil].
    - Methods with a pointer receiver take the client and return the updated
      client next to their results.
    - The operating system, the network and the peer are not code of the
      package.  Each is an explicit input of the model: a connection carries
      the behaviour of its peer; the parsers, the resolver, the dialer and
      the draws of [rand.Perm] are the fields of [Net].
    - The accessors ([RemoteAddr], [LocalAddr], [TLSGetVersion],
      [TLSGetCipherSuite]) read the state of the connections themselves and
      are left out; what they need of the session is [tls_consistent]. *)

From Stdlib Require Import ZArith String Ascii List Lia DecimalString.
From stdpp Require Import gmap strings list.

Local Open Scope string_scope.
Local Open Scope Z_scope.

(** ** The pieces of package [strings] that the client calls *)

Module strings.

(** [strings.Count(s, sep)] for a separator of one byte. *)
Fixpoint Count (s : string) (sep : ascii) : Z :=
  match s with
  | EmptyString => 0
  | String a r => (if Ascii.eqb a sep then 1 else 0) + Count r sep
  end.

(** [strings.Split(s, sep)] for a separator of one byte: the pieces of [s]
    between the separators, in order; never the empty list. *)
Fixpoint Split (s : string) (sep : ascii) : list string :=
  match s with
  | EmptyString => [EmptyString]
  | String a r =>
      if Ascii.eqb a sep then EmptyString :: Split r sep
      else match Split r sep with
           | h :: t => String a h :: t
           | [] => [String a EmptyString]
           end
  end.

(** [strings.SplitN(s, sep, 2)]: [(a, None)] stands for the slice [[a]] and
    [(a, Some b)] for the slice [[a, b]]. *)
Fixpoint SplitN2 (s : string) (sep : ascii) : string * option string :=
  match s with
  | EmptyString => (EmptyString, None)
  | String a r =>
      if Ascii.eqb a sep then (EmptyString, Some r)
      else let '(h, t) := SplitN2 r sep in (String a h, t)
  end.

Definition upper (a : ascii) : ascii :=
  let n := nat_of_ascii a in
  if (Nat.leb 97 n && Nat.leb n 122)%bool then ascii_of_nat (n - 32) else a.

(** [strings.ToUpper] on the ASCII range, which is where SMTP keywords live. *)
Fixpoint ToUpper (s : string) : string :=
  match s with
  | EmptyString => EmptyString
  | String a r => String (upper a) (ToUpper r)
  end.

End strings.

Definition LF : ascii := "010"%char.
Definition SP : ascii := " "%char.

(** ** Errors *)

Inductive error : Type :=
| errors_New (text : string)                (* errors.New, fmt.Errorf *)
| textproto_Error (code : Z) (msg : string) (* &textproto.Error{Code, Msg} *)
| io_error (text : string).                 (* a failure reported by net, tls or textproto *)

(** [%d] of package [fmt]. *)
Definition itoa (n : Z) : string := NilZero.string_of_int (Z.to_int n).

(** [%03d] for the codes of a reply, which are never negative. *)
Definition itoa3 (n : Z) : string :=
  if n <? 10 then "00" +:+ itoa n
  else if n <? 100 then "0" +:+ itoa n
  else itoa n.

(** The method [Error()]. *)
Definition Error (e : error) : string :=
  match e with
  | errors_New t => t
  | textproto_Error c m => itoa3 c +:+ " " +:+ m
  | io_error t => t
  end.

(** ** The transport: [net.Conn] under [textproto.Conn] *)

(** What [Reader.ReadResponse] finds on the wire: a well-formed reply, whose
    lines share one code and whose texts are joined by line feeds, or a
    failure of the read (closed connection, malformed line). *)
Inductive wire_reply : Type :=
| Reply (code : Z) (msg : string)
| ReadFail (e : error).

(** One command as the transport and the peer live it. *)
Record exchange : Type := {
  send_ns : Z;              (* how long [text.Cmd] takes to return *)
  send_err : option error;  (* what [text.Cmd] returns *)
  timer_wins_tie : bool;    (* the case [select] picks when both channels are ready *)
  read_ns : Z;              (* how long [text.ReadResponse] takes to return *)
  reply : wire_reply        (* what [text.ReadResponse] reads *)
}.

Inductive tls_Config : Type := TLSConfig (ServerName : string).

(** A [textproto.Conn] together with the socket it owns.  [s.conn] and
    [s.connTLS] are further references to this one socket, so its state is
    kept once, here.  The peer answers a command from the lines it has
    received so far, latest first. *)
Record Conn : Type := {
  greeting : wire_reply;
  peer : list string -> exchange;
  sent : list string;
  closed : bool;
  elapsed_ns : Z;
  secured : option tls_Config
}.

(** [textproto.NewConn(tls.Client(conn, config))]: the same socket, wrapped. *)
Definition NewConnTLS (t : Conn) (config : tls_Config) : Conn :=
  {| greeting := greeting t; peer := peer t; sent := sent t;
     closed := closed t; elapsed_ns := elapsed_ns t; secured := Some config |}.

Definition Close (t : Conn) : Conn :=
  {| greeting := greeting t; peer := peer t; sent := sent t;
     closed := true; elapsed_ns := elapsed_ns t; secured := secured t |}.

(** The socket after [line] was handed to it and [ns] nanoseconds passed. *)
Definition after (t : Conn) (line : string) (ns : Z) : Conn :=
  {| greeting := greeting t; peer := peer t; sent := line :: sent t;
     closed := closed t; elapsed_ns := elapsed_ns t + ns; secured := secured t |}.

(** The check of [textproto.parseCodeLine]: an expected code of one, two or
    three digits is compared with as many leading digits of the reply; any
    other expected code (0, -1) accepts every reply. *)
Definition code_mismatch (expectCode code : Z) : bool :=
  ((1 <=? expectCode) && (expectCode <? 10) && negb (code / 100 =? expectCode))
  || ((10 <=? expectCode) && (expectCode <? 100) && negb (code / 10 =? expectCode))
  || ((100 <=? expectCode) && (expectCode <? 1000) && negb (code =? expectCode)).

(** [Reader.ReadResponse(expectCode)] and [Reader.ReadCodeLine(expectCode)]. *)
Definition ReadResponse (expectCode : Z) (r : wire_reply) : Z * string * option error :=
  match r with
  | Reply code msg =>
      (code, msg,
       if code_mismatch expectCode code then Some (textproto_Error code msg) else None)
  | ReadFail e => (0, "", Some e)
  end.

(** ** The client *)

Record Route : Type := {
  Id : Z;
  LocalIp : string;      (* LocalIp.String *)
  RemoteHost : string;
  RemotePort : Z         (* RemotePort.Int64 *)
}.

Record smtpClient : Type := {
  text : Conn;
  route : option Route;
  connTLS : option tls_Config;
  ext : option (gmap string string);   (* [None] is the nil map *)
  tls : bool;
  auth : list string
}.

Definition set_text (s : smtpClient) (t : Conn) : smtpClient :=
  {| text := t; route := route s; connTLS := connTLS s;
     ext := ext s; tls := tls s; auth := auth s |}.

Definition set_ext (s : smtpClient) (e : option (gmap string string)) : smtpClient :=
  {| text := text s; route := route s; connTLS := connTLS s;
     ext := e; tls := tls s; auth := auth s |}.

Definition set_auth (s : smtpClient) (a : list string) : smtpClient :=
  {| text := text s; route := route s; connTLS := connTLS s;
     ext := ext s; tls := tls s; auth := a |}.

Definition set_tls (s : smtpClient) (b : bool) : smtpClient :=
  {| text := text s; route := route s; connTLS := connTLS s;
     ext := ext s; tls := b; auth := auth s |}.

Definition set_connTLS (s : smtpClient) (c : tls_Config) : smtpClient :=
  {| text := text s; route := route s; connTLS := Some c;
     ext := ext s; tls := tls s; auth := auth s |}.

(** The three results [(code, msg, err)] of a command. *)
Definition result : Type := (Z * string * option error)%type.

Definition err_of (r : result) : option error := snd r.
Definition code_of (r : result) : Z := fst (fst r).
Definition msg_of (r : result) : string := snd (fst r).

(** [time.Duration(timeoutSeconds) * time.Second], an [int64] of nanoseconds. *)
Definition wrap64 (z : Z) : Z := (z + 2 ^ 63) mod 2 ^ 64 - 2 ^ 63.
Definition timer_ns (timeoutSeconds : Z) : Z :=
  Z.max 0 (wrap64 (wrap64 timeoutSeconds * 1000000000)).

Definition timeout_error : error :=
  errors_New "server do not reply in time -> timeout".
Definition closed_error : error :=
  io_error "use of closed network connection".

(** [select] between [<-timeout] and [<-done]: the timer is raced by the
    goroutine, which runs [s.text.Cmd] and nothing else. *)
Definition timer_first (timer : Z) (x : exchange) : bool :=
  (timer <? send_ns x) || ((timer =? send_ns x) && timer_wins_tie x).

(** [cmd]: [line] is the command line once [format] and [args] are put
    together, which each caller does below.  A send that loses the race is
    not called off: the line is on its way all the same. *)
Definition cmd (s : smtpClient) (timeoutSeconds expectedCode : Z) (line : string)
  : smtpClient * result :=
  let t := text s in
  let x := peer t (line :: sent t) in
  let timer := timer_ns timeoutSeconds in
  if closed t then (s, (0, "", Some closed_error))
  else if timer_first timer x then
    (set_text s (after t line timer), (0, "", Some timeout_error))
  else
    match send_err x with
    | Some e => (set_text s (after t line (send_ns x)), (0, "", Some e))
    | None =>
        (set_text s (after t line (send_ns x + read_ns x)),
         ReadResponse expectedCode (reply x))
    end.

Definition close (s : smtpClient) : smtpClient := set_text s (Close (text s)).

Definition Extension (s : smtpClient) (e : string) : bool * string :=
  match ext s with
  | None => (false, "")
  | Some m =>
      match m !! strings.ToUpper e with
      | Some param => (true, param)
      | None => (false, "")
      end
  end.

Section WithConfig.

(** [Cfg.GetMe()], the identity announced to the peer. *)
Variable GetMe : string.

(** The body of the loop over [extList] in [Ehlo]. *)
Definition ehlo_line (m : gmap string string) (line : string) : gmap string string :=
  match strings.SplitN2 line SP with
  | (k, Some v) => <[k := v]> m
  | (k, None) => <[k := ""]> m
  end.

Definition ehlo_ext (msg : string) : gmap string string :=
  let extList := strings.Split msg LF in
  if (1 <? Z.of_nat (length extList)) then foldl ehlo_line ∅ (tail extList) else ∅.

Definition Ehlo (s : smtpClient) : smtpClient * result :=
  let '(s1, (code, msg, err)) := cmd s 10 250 ("EHLO " +:+ GetMe) in
  match err with
  | Some _ => (s1, (code, msg, err))
  | None =>
      let m := ehlo_ext msg in
      let s2 := match m !! "AUTH" with
                | Some mechs => set_auth s1 (strings.Split mechs SP)
                | None => s1
                end in
      (set_ext s2 (Some m), (code, msg, err))
  end.

Definition Helo (s : smtpClient) : smtpClient * result :=
  cmd (set_ext s None) 30 250 ("HELO " +:+ GetMe).

Definition Hello (s : smtpClient) : smtpClient * result :=
  let '(s1, r) := Ehlo s in
  match err_of r with
  | None => (s1, r)
  | Some _ => Helo s1
  end.

Definition Noop (s : smtpClient) : smtpClient * result := cmd s 30 200 "NOOP".

Definition StartTLS (s : smtpClient) (config : tls_Config) : smtpClient * result :=
  let s0 := set_tls s false in
  let '(s1, r1) := cmd s0 30 220 "STARTTLS" in
  match err_of r1 with
  | Some _ => (s1, r1)
  | None =>
      let s2 := set_text (set_connTLS s1 config) (NewConnTLS (text s1) config) in
      let '(s3, r3) := Ehlo s2 in
      match err_of r3 with
      | Some _ => (s3, r3)
      | None => (set_tls s3 true, r3)
      end
  end.

Definition Mail (s : smtpClient) (from : string) : smtpClient * result :=
  cmd s 30 250 ("MAIL FROM:<" +:+ from +:+ ">").

Definition Rcpt (s : smtpClient) (to : string) : smtpClient * result :=
  let '(s1, (code, msg, err)) := cmd s 30 (-1) ("RCPT TO:<" +:+ to +:+ ">") in
  if negb (code =? 250) && negb (code =? 251)
  then (s1, (code, msg, Some (errors_New msg)))
  else (s1, (code, msg, err)).

Definition Quit (s : smtpClient) : smtpClient * result :=
  let '(s1, r) := cmd s 10 221 "QUIT" in
  (set_text s1 (Close (text s1)), r).

End WithConfig.

(** ** [newSMTPClient] *)

(** [net.IP]: the bytes of the address. *)
Definition IP : Type := list Z.

Record TCPAddr : Type := { addr_IP : IP; addr_Port : Z }.

(** How the race between [net.DialTCP] and the 30 s [connectTimer] ends. *)
Inductive dial_outcome : Type :=
| TimedOut                  (* [<-connectTimer.C] came first *)
| DialFailed (e : error)    (* [<-done] delivered an error *)
| Connected (c : Conn).     (* [<-done] delivered [nil]; [c] is the socket *)

(** What lies outside the package: the parsers and the resolver of [net],
    [IsIPV4] (package [core], another file), the source of [rand.Perm] and
    the network reached by [net.DialTCP].  The [k]-th call of [rand.Perm]
    and the [k]-th dial of one run are told apart by [k]. *)
Record Net : Type := {
  ParseIP : string -> option IP;
  IPString : IP -> string;
  LookupIP : string -> error + list IP;
  IsIPV4 : string -> bool;
  ResolveTCPAddr : string -> error + TCPAddr;
  Perm : nat -> nat -> list nat;
  DialTCP : nat -> TCPAddr -> TCPAddr -> dial_outcome
}.

(** One pass through the [select] of the inner loop. *)
Record attempt : Type := {
  att_local : IP;
  att_remote : TCPAddr;
  att_outcome : dial_outcome
}.

(** What one run has consumed so far: the number of calls of [rand.Perm]
    and the attempts made, latest first. *)
Record run : Type := { perms : nat; attempts : list attempt }.

Definition run0 : run := {| perms := 0; attempts := [] |}.

Definition drew (r : run) : run :=
  {| perms := S (perms r); attempts := attempts r |}.

Definition tried (r : run) (a : attempt) : run :=
  {| perms := perms r; attempts := a :: attempts r |}.

(** The two results [(client, err)] of [newSMTPClient]. *)
Definition connected : Type := (option smtpClient * option error)%type.

(** A loop body either falls through to the next iteration or returns. *)
Inductive flow : Type :=
| Continue (r : run)
| Return (res : connected) (r : run).

(** [for i, v := range perm { rSIps[v] = sIps[i] }].  [rand.Perm(n)] is a
    permutation of [0 .. n-1], so no index is out of range in the code. *)
Fixpoint place (perm : list nat) (sIps rSIps : list string) : list string :=
  match perm, sIps with
  | v :: perm', x :: sIps' => place perm' sIps' (<[v := x]> rSIps)
  | _, _ => rSIps
  end.

(** Lines 57 to 66: split, then reorder by the permutation drawn. *)
Definition split_and_place (spec : string) (sep : ascii) (perm : nat -> list nat)
  : list string :=
  let sIps := strings.Split spec sep in
  place (perm (length sIps)) sIps (replicate (length sIps) "").

Definition mixed_error (rt : Route) : error :=
  errors_New ("failover and round-robin are mixed in route " +:+ itoa (Id rt)
              +:+ " for local IP").

(** Lines 38 to 67: the strings of the local addresses of a route, in the
    order in which they will be tried.  [perm] is the call of [rand.Perm]
    that this route would make; the boolean tells whether it was made. *)
Definition local_ip_strings (rt : Route) (perm : nat -> list nat)
  : error + (list string * bool) :=
  let failover := negb (strings.Count (LocalIp rt) "&" =? 0) in
  let roundRobin := negb (strings.Count (LocalIp rt) "|" =? 0) in
  if failover && roundRobin then inl (mixed_error rt)
  else if negb failover && negb roundRobin then inr ([LocalIp rt], false)
  else
    let sep : ascii := if failover then "&"%char else "|"%char in
    inr (split_and_place (LocalIp rt) sep perm, true).

Section WithNet.

Variable W : Net.

(** Lines 70 to 76. *)
Fixpoint parse_local (spec : string) (sIps : list string) : error + list IP :=
  match sIps with
  | [] => inr []
  | ipStr :: rest =>
      match ParseIP W ipStr with
      | None =>
          inl (errors_New ("invalid IP " +:+ ipStr
                           +:+ " found in localIp routes: " +:+ spec))
      | Some ip =>
          match parse_local spec rest with
          | inl e => inl e
          | inr ips => inr (ip :: ips)
          end
      end
  end.

(** Lines 81 to 100. *)
Definition remote_addresses (rt : Route) : error + list TCPAddr :=
  match ParseIP W (RemoteHost rt) with
  | Some ip => inr [{| addr_IP := ip; addr_Port := RemotePort rt |}]
  | None =>
      match LookupIP W (RemoteHost rt) with
      | inl e => inl e
      | inr ips =>
          inr (map (fun i => {| addr_IP := i; addr_Port := RemotePort rt |}) ips)
      end
  end.

(** Lines 126 to 143, once the race is decided.  On [<-done] the function
    returns whatever the dial gave: the [err] assigned by
    [ReadCodeLine(220)] is a new variable of the inner block, so the [err]
    of [return nil, err] is still the one of the dial. *)
Definition settle (rt : Route) (o : dial_outcome) : option connected :=
  match o with
  | TimedOut => None
  | DialFailed e => Some (None, Some e)
  | Connected c =>
      match err_of (ReadResponse 220 (greeting c)) with
      | None =>
          Some (Some {| text := c; route := Some rt; connTLS := None;
                        ext := None; tls := false; auth := [] |}, None)
      | Some _ => Some (None, None)
      end
  end.

(** Lines 104 to 145: the loop over [remoteAddresses] for one local address. *)
Fixpoint try_remotes (rt : Route) (localIP : IP) (remotes : list TCPAddr) (r : run)
  : flow :=
  match remotes with
  | [] => Continue r
  | remoteAddr :: rest =>
      if negb (Bool.eqb (IsIPV4 W (IPString W localIP))
                        (IsIPV4 W (IPString W (addr_IP remoteAddr))))
      then try_remotes rt localIP rest r
      else
        match ResolveTCPAddr W (IPString W localIP +:+ ":0") with
        | inl e =>
            Return (None, Some (errors_New ("bad local IP: " +:+ IPString W localIP
                                            +:+ ". " +:+ Error e))) r
        | inr localAddr =>
            let o := DialTCP W (length (attempts r)) localAddr remoteAddr in
            let r' := tried r {| att_local := localIP; att_remote := remoteAddr;
                                 att_outcome := o |} in
            match settle rt o with
            | Some res => Return res r'
            | None => try_remotes rt localIP rest r'
            end
        end
  end.

(** Lines 103 to 146: the loop over [localIPs]. *)
Fixpoint try_locals (rt : Route) (localIPs : list IP) (remotes : list TCPAddr) (r : run)
  : flow :=
  match localIPs with
  | [] => Continue r
  | localIP :: rest =>
      match try_remotes rt localIP remotes r with
      | Continue r' => try_locals rt rest remotes r'
      | Return res r' => Return res r'
      end
  end.

(** The body of the loop over [*routes]. *)
Definition try_route (rt : Route) (r : run) : flow :=
  match local_ip_strings rt (Perm W (perms r)) with
  | inl e => Return (None, Some e) r
  | inr (sIps, drawn) =>
      let r1 := if drawn then drew r else r in
      match parse_local (LocalIp rt) sIps with
      | inl e => Return (None, Some e) r1
      | inr localIPs =>
          match remote_addresses rt with
          | inl e => Return (None, Some e) r1
          | inr remotes => try_locals rt localIPs remotes r1
          end
      end
  end.

Definition exhausted : error :=
  errors_New "unable to get a client, all routes have been tested".

Fixpoint try_routes (routes : list Route) (r : run) : connected * run :=
  match routes with
  | [] => ((None, Some exhausted), r)
  | rt :: rest =>
      match try_route rt r with
      | Continue r' => try_routes rest r'
      | Return res r' => (res, r')
      end
  end.

Definition newSMTPClient (routes : list Route) : connected * run :=
  try_routes routes run0.

End WithNet.

(** ** [Auth] *)

Definition bytes : Type := list Byte.byte.

(** [&ServerInfo{Cfg.GetMe(), s.tls, s.auth}] *)
Record ServerInfo : Type := {
  Name : string;
  TLS : bool;
  Auth_mechs : list string
}.

(** The interface [DeliverdAuth].  An authenticator is an object with a
    state of its own, of type [A]; each method returns the new state.  A
    [[]byte] result that [Auth] compares with [nil] is an option. *)
Class DeliverdAuth (A : Type) : Type := {
  Start : A -> ServerInfo -> A * (string * bytes * option error);
  Next : A -> bytes -> bool -> A * (option bytes * option error)
}.

(** What [Auth] uses of an [*base64.Encoding]. *)
Record Encoding : Type := {
  EncodeToString : bytes -> string;
  DecodeString : string -> error + bytes
}.

(** A call of [a.Next] as the authenticator sees it. *)
Record next_call : Type := { fromServer : bytes; more : bool }.

(** What a call of [Auth] leaves behind: the authenticator, the session,
    the results, and the calls of [a.Next] it made, first call first. *)
Record auth_end (A : Type) : Type := {
  end_auth : A;
  end_client : smtpClient;
  end_result : result;
  end_calls : list next_call
}.
Arguments end_auth {A}.
Arguments end_client {A}.
Arguments end_result {A}.
Arguments end_calls {A}.

Section WithAuthenticator.

Variable GetMe : string.
Variable encoding : Encoding.
Context {A : Type} `{DeliverdAuth A}.

(** The [switch code] of the loop: the message handed to [a.Next], or the
    error that aborts the exchange. *)
Definition dispatch (code : Z) (msg64 : string) : error + bytes :=
  if code =? 334 then DecodeString encoding msg64
  else if code =? 235 then inr (list_byte_of_string msg64)
  else inl (textproto_Error code msg64).

(** [s.cmd(10, 501, "*"); s.Quit(); break] *)
Definition abort (s : smtpClient) : smtpClient :=
  fst (Quit (fst (cmd s 10 501 "*"))).

(** [for err == nil { ... }], entered with the results of the last command.
    The named result [msg] is never assigned ([var msg []byte] of the body
    is another variable), so [Auth] returns the empty string for it.
    The peer may send challenges for ever; [fuel] bounds the number of
    iterations and [None] means the bound was reached. *)
Fixpoint auth_loop (fuel : nat) (a : A) (s : smtpClient) (r : result)
    (calls : list next_call) : option (auth_end A) :=
  let '(code, msg64, err) := r in
  match err with
  | Some _ =>
      Some {| end_auth := a; end_client := s; end_result := (code, "", err);
              end_calls := calls |}
  | None =>
      match fuel with
      | O => None
      | S fuel' =>
          match dispatch code msg64 with
          | inl e =>
              Some {| end_auth := a; end_client := abort s;
                      end_result := (code, "", Some e); end_calls := calls |}
          | inr msg =>
              let '(a', (resp, err')) := Next a msg (code =? 334) in
              let calls' := (calls ++ [{| fromServer := msg; more := code =? 334 |}])%list in
              match err', resp with
              | Some e, _ =>
                  Some {| end_auth := a'; end_client := abort s;
                          end_result := (code, "", Some e); end_calls := calls' |}
              | None, None =>
                  Some {| end_auth := a'; end_client := s;
                          end_result := (code, "", None); end_calls := calls' |}
              | None, Some resp' =>
                  let '(s', r') := cmd s 30 0 (EncodeToString encoding resp') in
                  auth_loop fuel' a' s' r' calls'
              end
          end
      end
  end.

Definition Auth (fuel : nat) (a : A) (s : smtpClient) : option (auth_end A) :=
  let info := {| Name := GetMe; TLS := tls s; Auth_mechs := auth s |} in
  let '(a1, (mech, resp, err)) := Start a info in
  match err with
  | Some _ =>
      Some {| end_auth := a1; end_client := fst (Quit s);
              end_result := (0, "", err); end_calls := [] |}
  | None =>
      let '(s1, r1) :=
        cmd s 30 0 ("AUTH " +:+ mech +:+ " " +:+ EncodeToString encoding resp) in
      auth_loop fuel a1 s1 r1 []
  end.

End WithAuthenticator.

(** ** [Data], and sequences of calls *)

(** [dataCloser]: the client next to the [DotWriter] of its [text]. *)
Record dataCloser : Type := { dc_s : smtpClient }.

Definition Data (s : smtpClient) : smtpClient * (option dataCloser * result) :=
  let '(s1, (code, msg, err)) := cmd s 30 354 "DATA" in
  match err with
  | Some _ => (s1, (None, (code, msg, err)))
  | None => (s1, (Some {| dc_s := s1 |}, (code, msg, None)))
  end.

(** A call of one of the methods that take no authenticator. *)
Inductive call : Type :=
| CallNoop
| CallHello
| CallEhlo
| CallHelo
| CallStartTLS (config : tls_Config)
| CallMail (from : string)
| CallRcpt (to : string)
| CallData
| CallQuit
| CallClose.

(** The session a call leaves behind. *)
Definition perform (GetMe : string) (s : smtpClient) (c : call) : smtpClient :=
  match c with
  | CallNoop => fst (Noop s)
  | CallHello => fst (Hello GetMe s)
  | CallEhlo => fst (Ehlo GetMe s)
  | CallHelo => fst (Helo GetMe s)
  | CallStartTLS config => fst (StartTLS GetMe s config)
  | CallMail from => fst (Mail s from)
  | CallRcpt to => fst (Rcpt s to)
  | CallData => fst (Data s)
  | CallQuit => fst (Quit s)
  | CallClose => close s
  end.

Definition after_calls (GetMe : string) (s : smtpClient) (cs : list call) : smtpClient :=
  foldl (perform GetMe) s cs.

(** ** Vocabulary of the statements *)

(** What the transport and the peer do with [line], sent next on [s]. *)
Definition on_wire (s : smtpClient) (line : string) : exchange :=
  peer (text s) (line :: sent (text s)).

(** The command [line], sent on [s] with a timer of [timeoutSeconds], is
    written before the timer fires and the peer's reply [code msg] is read. *)
Definition hears (s : smtpClient) (timeoutSeconds : Z) (line : string)
    (code : Z) (msg : string) : Prop :=
  closed (text s) = false
  /\ timer_first (timer_ns timeoutSeconds) (on_wire s line) = false
  /\ send_err (on_wire s line) = None
  /\ reply (on_wire s line) = Reply code msg.

Definition rcpt_line (to : string) : string := "RCPT TO:<" +:+ to +:+ ">".

Definition auth_line (encoding : Encoding) (mech : string) (resp : bytes) : string :=
  "AUTH " +:+ mech +:+ " " +:+ EncodeToString encoding resp.

(** The session as [StartTLS] hands it to the second [Ehlo]. *)
Definition upgraded (s : smtpClient) (config : tls_Config) : smtpClient :=
  let s1 := fst (cmd (set_tls s false) 30 220 "STARTTLS") in
  set_text (set_connTLS s1 config) (NewConnTLS (text s1) config).

(** The attempt connected and the greeting was not a 220 line. *)
Definition bad_greeting (a : attempt) : bool :=
  match att_outcome a with
  | Connected c =>
      match err_of (ReadResponse 220 (greeting c)) with
      | Some _ => true
      | None => false
      end
  | _ => false
  end.

Definition timed_out (a : attempt) : bool :=
  match att_outcome a with
  | TimedOut => true
  | _ => false
  end.

(** The shape of the attempts of a run that returned [res]: all of them timed
    out, except possibly the latest, and then the latest gave [res]. *)
Definition decided_by_latest (res : connected) (r : run) : Prop :=
  forallb timed_out (attempts r) = true
  \/ exists rt a rest,
       attempts r = a :: rest
       /\ forallb timed_out rest = true
       /\ settle rt (att_outcome a) = Some res.

(** The accessors [TLSGetVersion], [TLSGetCipherSuite], [RemoteAddr] and
    [LocalAddr] go through [s.connTLS] when [s.tls] is set: what they need. *)
Definition tls_consistent (s : smtpClient) : Prop :=
  tls s = true -> connTLS s <> None /\ secured (text s) <> None.

(** The pair of an attempt is of one address family. *)
Definition same_family (W : Net) (a : attempt) : bool :=
  Bool.eqb (IsIPV4 W (IPString W (att_local a)))
           (IsIPV4 W (IPString W (addr_IP (att_remote a)))).

(** How a run that returned [res] went: either every attempt timed out and
    [res] is an error, or every attempt but the latest timed out and the
    latest, made for a route of the list, gave [res]. *)
Definition outcome_shape (routes : list Route) (res : connected) (r : run) : Prop :=
  (forallb timed_out (attempts r) = true /\ exists e, res = (None, Some e))
  \/ exists rt a rest,
       In rt routes
       /\ attempts r = a :: rest
       /\ forallb timed_out rest = true
       /\ timed_out a = false
       /\ settle rt (att_outcome a) = Some res.

(** The client that [newSMTPClient] builds over the socket [c] for [rt]. *)
Definition new_client (rt : Route) (c : Conn) : smtpClient :=
  {| text := c; route := Some rt; connTLS := None; ext := None;
     tls := false; auth := [] |}.

(** The byte [c] does not occur in [s]. *)
Definition free_of (c : ascii) (s : string) : Prop := strings.Count s c = 0.

(** What holds of every attempt: one family, and the port of a route. *)
Definition paired (W : Net) (routes : list Route) (a : attempt) : Prop :=
  same_family W a = true
  /\ exists rt, In rt routes /\ addr_Port (att_remote a) = RemotePort rt.

(** The error of lines 72 to 74. *)
Definition invalid_ip (ipStr spec : string) : error :=
  errors_New ("invalid IP " +:+ ipStr +:+ " found in localIp routes: " +:+ spec).

(** ** Concrete surroundings, for the executions below *)

(** [base64.StdEncoding]: the standard alphabet, padded. *)
Module base64.

Local Open Scope N_scope.

Definition alphabet : string :=
  "ABCDEFGHIJKLMNOPQRSTUVWXYZabcdefghijklmnopqrstuvwxyz0123456789+/".

Definition pad : ascii := "="%char.

Definition digit (n : N) : ascii :=
  match String.get (N.to_nat n) alphabet with
  | Some c => c
  | None => pad
  end.

Fixpoint find (c : ascii) (s : string) (i : N) : option N :=
  match s with
  | EmptyString => None
  | String a r => if Ascii.eqb a c then Some i else find c r (i + 1)
  end.

Definition value (c : ascii) : option N := find c alphabet 0.

Fixpoint encode (src : list N) : string :=
  match src with
  | [] => EmptyString
  | [a] =>
      String (digit (a / 4)) (String (digit (a mod 4 * 16)) (String pad (String pad "")))
  | [a; b] =>
      String (digit (a / 4)) (String (digit (a mod 4 * 16 + b / 16))
        (String (digit (b mod 16 * 4)) (String pad "")))
  | a :: b :: c :: rest =>
      String (digit (a / 4)) (String (digit (a mod 4 * 16 + b / 16))
        (String (digit (b mod 16 * 4 + c / 64)) (String (digit (c mod 64))
          (encode rest))))
  end.

Fixpoint decode (src : list ascii) : option (list N) :=
  match src with
  | [] => Some []
  | a :: b :: c :: d :: rest =>
      match value a, value b with
      | Some va, Some vb =>
          if Ascii.eqb c pad then
            match Ascii.eqb d pad, rest with
            | true, [] => Some [va * 4 + vb / 16]
            | _, _ => None
            end
          else
            match value c with
            | None => None
            | Some vc =>
                if Ascii.eqb d pad then
                  match rest with
                  | [] => Some [va * 4 + vb / 16; vb mod 16 * 16 + vc / 4]
                  | _ => None
                  end
                else
                  match value d, decode rest with
                  | Some vd, Some tl =>
                      Some (va * 4 + vb / 16 :: vb mod 16 * 16 + vc / 4
                            :: vc mod 4 * 64 + vd :: tl)
                  | _, _ => None
                  end
            end
      | _, _ => None
      end
  | _ => None
  end.

Definition to_byte (n : N) : Byte.byte :=
  match Byte.of_N n with
  | Some b => b
  | None => Byte.x00
  end.

Definition StdEncoding : Encoding :=
  {| EncodeToString := fun src => encode (map Byte.to_N src);
     DecodeString := fun s =>
       match decode (list_ascii_of_string s) with
       | Some ns => inr (map to_byte ns)
       | None => inl (io_error "illegal base64 data")
       end |}.

End base64.

Module Sample.

Definition me : string := "mail.tmail.test".

(** A transport without delay over which the peer answers at once. *)
Definition prompt (r : wire_reply) : exchange :=
  {| send_ns := 0; send_err := None; timer_wins_tie := false;
     read_ns := 0; reply := r |}.

(** A peer that looks at the verb of the last command only. *)
Definition by_verb (answer : string -> wire_reply) (lines : list string) : exchange :=
  match lines with
  | [] => prompt (ReadFail (io_error "EOF"))
  | line :: _ => prompt (answer (fst (strings.SplitN2 line SP)))
  end.

Definition fresh (p : list string -> exchange) : Conn :=
  {| greeting := Reply 220 "mx.example.test ESMTP"; peer := p; sent := [];
     closed := false; elapsed_ns := 0; secured := None |}.

Definition session (p : list string -> exchange) : smtpClient :=
  {| text := fresh p; route := None; connTLS := None; ext := None;
     tls := false; auth := [] |}.

(** A server that advertises its extensions in capitals. *)
Definition esmtp (verb : string) : wire_reply :=
  if String.eqb verb "EHLO" then
    Reply 250 ("greet" +:+ String LF "AUTH PLAIN LOGIN" +:+ String LF "SIZE 100")
  else if String.eqb verb "HELO" then Reply 250 "greet"
  else if String.eqb verb "STARTTLS" then Reply 220 "Go ahead"
  else if String.eqb verb "AUTH" then Reply 235 "Authentication successful"
  else if String.eqb verb "RCPT" then Reply 252 "Cannot VRFY user"
  else if String.eqb verb "QUIT" then Reply 221 "Bye"
  else Reply 500 "unrecognized command".

(** A server that advertises them in small letters. *)
Definition lowercase (verb : string) : wire_reply :=
  if String.eqb verb "EHLO" then
    Reply 250 ("greet" +:+ String LF "starttls" +:+ String LF "auth PLAIN LOGIN")
  else Reply 500 "unrecognized command".

(** A peer that takes the command at once and answers after 100 s. *)
Definition slow (lines : list string) : exchange :=
  {| send_ns := 0; send_err := None; timer_wins_tie := false;
     read_ns := 100 * 1000000000; reply := Reply 250 "OK" |}.

(** A peer whose answer to QUIT never reaches the client in time. *)
Definition stalled (lines : list string) : exchange :=
  {| send_ns := 11 * 1000000000; send_err := None; timer_wins_tie := false;
     read_ns := 0; reply := Reply 221 "Bye" |}.

(** The PLAIN mechanism: one initial response, and no challenge expected.
    Its state counts the calls of [Next]. *)
#[global] Instance plain : DeliverdAuth nat :=
  {| Start := fun n info =>
       (n, ("PLAIN", list_byte_of_string (String zero ("user" +:+ String zero "secret")),
            None));
     Next := fun n fromServer more =>
       if more then (S n, (None, Some (errors_New "unexpected server challenge")))
       else (S n, (None, None)) |}.

(** Addresses of the form used in the routes below. *)
Definition parse (s : string) : option IP :=
  if String.eqb s "10.0.0.1" then Some [10; 0; 0; 1]
  else if String.eqb s "10.0.0.2" then Some [10; 0; 0; 2]
  else if String.eqb s "192.0.2.1" then Some [192; 0; 2; 1]
  else if String.eqb s "192.0.2.2" then Some [192; 0; 2; 2]
  else None.

Fixpoint dotted (ip : IP) : string :=
  match ip with
  | [] => ""
  | [a] => itoa a
  | a :: rest => itoa a +:+ "." +:+ dotted rest
  end.

(** The host 192.0.2.1 accepts the connection and greets with 554; the
    host 192.0.2.2 greets with 220. *)
Definition dial (k : nat) (localAddr remoteAddr : TCPAddr) : dial_outcome :=
  if String.eqb (dotted (addr_IP remoteAddr)) "192.0.2.1" then
    Connected {| greeting := Reply 554 "No SMTP service here";
                 peer := by_verb esmtp; sent := []; closed := false;
                 elapsed_ns := 0; secured := None |}
  else Connected (fresh (by_verb esmtp)).

(** A network on which [rand.Perm(2)] draws the permutation [[1, 0]]. *)
Definition net : Net :=
  {| ParseIP := parse;
     IPString := dotted;
     LookupIP := fun host => inl (io_error ("lookup " +:+ host +:+ ": no such host"));
     IsIPV4 := fun s => true;
     ResolveTCPAddr := fun s =>
       match parse (fst (strings.SplitN2 s ":"%char)) with
       | Some ip => inr {| addr_IP := ip; addr_Port := 0 |}
       | None => inl (io_error "invalid address")
       end;
     Perm := fun k n => match n with 2%nat => [1%nat; 0%nat] | _ => seq 0 n end;
     DialTCP := dial |}.

Definition route1 : Route :=
  {| Id := 1; LocalIp := "10.0.0.1"; RemoteHost := "192.0.2.1"; RemotePort := 25 |}.
Definition route2 : Route :=
  {| Id := 2; LocalIp := "10.0.0.1"; RemoteHost := "192.0.2.2"; RemotePort := 25 |}.
Definition failover_route : Route :=
  {| Id := 3; LocalIp := "10.0.0.1&10.0.0.2"; RemoteHost := "192.0.2.2";
     RemotePort := 25 |}.

(** A server that knows HELO only. *)
Definition helo_only (verb : string) : wire_reply :=
  if String.eqb verb "HELO" then Reply 250 "greet"
  else Reply 502 "command not implemented".

(** A server that answers every command with 250, NOOP too. *)
Definition agreeable (verb : string) : wire_reply := Reply 250 "OK".


(** A server that upgrades to TLS and then fails the handshake. *)
Definition no_handshake (lines : list string) : exchange :=
  match lines with
  | line :: _ =>
      if String.eqb line "STARTTLS" then prompt (Reply 220 "Go ahead")
      else {| send_ns := 0; send_err := Some (io_error "tls: handshake failure");
              timer_wins_tie := false; read_ns := 0;
              reply := ReadFail (io_error "EOF") |}
  | [] => prompt (ReadFail (io_error "EOF"))
  end.

(** A server that answers the AUTH command with one challenge and the
    response to it with 235. *)
Definition challenger (lines : list string) : exchange :=
  match lines with
  | [_] => prompt (Reply 334 "PDEyMzQ1QG14LmV4YW1wbGUudGVzdD4=")
  | _ => prompt (Reply 235 "Authentication successful")
  end.


(** A mechanism of one round: no initial response, one response to the
    challenge.  Its state tells whether the challenge was answered. *)
#[global] Instance one_round : DeliverdAuth bool :=
  {| Start := fun b info => (b, ("CRAM-MD5", [], None));
     Next := fun b fromServer more =>
       if more then (true, (Some (list_byte_of_string "user 0123456789abcdef"), None))
       else (b, (None, None)) |}.

(** An authenticator that refuses to start without TLS. *)
#[global] Instance wary : DeliverdAuth unit :=
  {| Start := fun u info =>
       if TLS info then (u, ("PLAIN", [], None))
       else (u, ("", [], Some (errors_New "unencrypted connection")));
     Next := fun u fromServer more => (u, (None, None)) |}.

(** A network of both families on which every dial times out. *)
Definition v6 : IP := [8193; 3512; 0; 0; 0; 0; 0; 1].

Definition dual : Net :=
  {| ParseIP := fun s => if String.eqb s "2001:db8::1" then Some v6 else parse s;
     IPString := fun ip => if Nat.eqb (length ip) 4 then dotted ip else "2001:db8::1";
     LookupIP := fun host => inl (io_error ("lookup " +:+ host +:+ ": no such host"));
     IsIPV4 := fun s => strings.Count s ":"%char =? 0;
     ResolveTCPAddr := fun s =>
       match parse (fst (strings.SplitN2 s ":"%char)) with
       | Some ip => inr {| addr_IP := ip; addr_Port := 0 |}
       | None => inl (io_error "invalid address")
       end;
     Perm := fun k n => seq 0 n;
     DialTCP := fun k localAddr remoteAddr => TimedOut |}.

(** A network on which the host 192.0.2.1 refuses the connection. *)
Definition refusing : Net :=
  {| ParseIP := parse;
     IPString := dotted;
     LookupIP := fun host => inl (io_error ("lookup " +:+ host +:+ ": no such host"));
     IsIPV4 := fun s => true;
     ResolveTCPAddr := ResolveTCPAddr net;
     Perm := fun k n => seq 0 n;
     DialTCP := fun k localAddr remoteAddr =>
       if String.eqb (dotted (addr_IP remoteAddr)) "192.0.2.1"
       then DialFailed (io_error "connect: connection refused")
       else Connected (fresh (by_verb esmtp)) |}.

Definition dual_route : Route :=
  {| Id := 4; LocalIp := "2001:db8::1&10.0.0.1"; RemoteHost := "192.0.2.2";
     RemotePort := 25 |}.
Definition mixed_route : Route :=
  {| Id := 5; LocalIp := "10.0.0.1&10.0.0.2|192.0.2.1"; RemoteHost := "192.0.2.2";
     RemotePort := 25 |}.
Definition named_route : Route :=
  {| Id := 6; LocalIp := "10.0.0.1"; RemoteHost := "mx.example.test";
     RemotePort := 25 |}.
Definition misspelt_route : Route :=
  {| Id := 7; LocalIp := "10.0.0.1&10.0.0.x"; RemoteHost := "192.0.2.2";
     RemotePort := 25 |}.

End Sample.

(** ** Checks of the embedding on the examples of the specification *)

Example split_failover :
  strings.Split "10.0.0.1&10.0.0.2" "&" = ["10.0.0.1"; "10.0.0.2"].
Proof. reflexivity. Qed.

Example split_empty : strings.Split "" "&" = [""].
Proof. reflexivity. Qed.

Example base64_foo :
  EncodeToString base64.StdEncoding (list_byte_of_string "foob") = "Zm9vYg=="
  /\ DecodeString base64.StdEncoding "Zm9vYg==" = inr (list_byte_of_string "foob").
Proof. split; vm_compute; reflexivity. Qed.

Example ehlo_parses :
  let s := fst (Ehlo Sample.me (Sample.session (Sample.by_verb Sample.esmtp))) in
  Extension s "auth" = (true, "PLAIN LOGIN")
  /\ Extension s "SIZE" = (true, "100")
  /\ Extension s "STARTTLS" = (false, "")
  /\ auth s = ["PLAIN"; "LOGIN"].
Proof. vm_compute. auto. Qed.

(** ** The command primitive *)

Lemma cmd_closed s timeoutSeconds expectedCode line :
  closed (text s) = true ->
  cmd s timeoutSeconds expectedCode line = (s, (0, "", Some closed_error)).
Proof. intros Hc. unfold cmd. rewrite Hc. reflexivity. Qed.

Lemma cmd_hears s timeoutSeconds expectedCode line code msg :
  hears s timeoutSeconds line code msg ->
  cmd s timeoutSeconds expectedCode line =
    (set_text s (after (text s) line
                   (send_ns (on_wire s line) + read_ns (on_wire s line))),
     ReadResponse expectedCode (Reply code msg)).
Proof.
  intros (Hc & Ht & Hs & Hr). unfold on_wire in *. unfold cmd.
  rewrite Hc, Ht, Hs, Hr. reflexivity.
Qed.

(** [cmd] touches the transport only: the negotiated state is as before. *)
Lemma cmd_keeps s timeoutSeconds expectedCode line :
  let s' := fst (cmd s timeoutSeconds expectedCode line) in
  ext s' = ext s /\ auth s' = auth s /\ tls s' = tls s.
Proof.
  unfold cmd. destruct (closed (text s)); [auto|].
  destruct (timer_first _ _); [simpl; auto|].
  destruct (send_err _); simpl; auto.
Qed.

(** Whether [cmd] ends in its timeout is settled by the time the send
    takes; the time the read takes plays no part. *)
Lemma cmd_timeout s timeoutSeconds expectedCode line :
  closed (text s) = false ->
  timer_first (timer_ns timeoutSeconds) (on_wire s line) = true ->
  snd (cmd s timeoutSeconds expectedCode line) = (0, "", Some timeout_error).
Proof.
  intros Hc Ht. unfold on_wire in Ht. unfold cmd. rewrite Hc, Ht. reflexivity.
Qed.

(** When the expected code is not one to enforce, an error of [cmd] comes
    with code 0. *)
Lemma cmd_unchecked_error s timeoutSeconds line :
  err_of (snd (cmd s timeoutSeconds (-1) line)) <> None ->
  code_of (snd (cmd s timeoutSeconds (-1) line)) = 0.
Proof.
  unfold cmd. destruct (closed (text s)); [reflexivity|].
  destruct (timer_first _ _); [reflexivity|].
  destruct (send_err _); [reflexivity|].
  destruct (reply _) as [c m|e]; simpl; [congruence | reflexivity].
Qed.

(** ** Envelope commands *)


(** [Quit] at work when the command runs into its timeout and when the
    server answers with another code. *)
Example Quit_closes_after_timeout :
  Quit (Sample.session Sample.stalled)
  = (set_text (Sample.session Sample.stalled)
       (Close (after (Sample.fresh Sample.stalled) "QUIT" (10 * 1000000000))),
     (0, "", Some timeout_error)).
Proof. reflexivity. Qed.

(** C9. When the server's reply to RCPT is read, [Rcpt] returns its code and
    message; it returns no error exactly when the code is 250 or 251, and
    for every other code it returns an error whose text is the server's
    message. *)
Theorem Rcpt_accepts_250_and_251 (s : smtpClient) (to : string) (code : Z) (msg : string) :
  hears s 30 (rcpt_line to) code msg ->
  code_of (snd (Rcpt s to)) = code
  /\ msg_of (snd (Rcpt s to)) = msg
  /\ (err_of (snd (Rcpt s to)) = None <-> code = 250 \/ code = 251)
  /\ (forall e, err_of (snd (Rcpt s to)) = Some e -> Error e = msg).
Proof.
  intros Hh. unfold Rcpt. fold (rcpt_line to).
  rewrite (cmd_hears _ _ (-1) _ _ _ Hh). cbn [ReadResponse code_mismatch].
  replace (code_mismatch (-1) code) with false by reflexivity.
  destruct (code =? 250) eqn:E1; [apply Z.eqb_eq in E1|apply Z.eqb_neq in E1];
    (destruct (code =? 251) eqn:E2; [apply Z.eqb_eq in E2|apply Z.eqb_neq in E2]);
    cbn; repeat split; auto; try congruence; try lia; try tauto.
  intros e [= <-]. reflexivity.
Qed.

Lemma Rcpt_accepts_250_and_251_witness :
  let s := Sample.session (Sample.by_verb Sample.esmtp) in
  let to := "postmaster@example.test" in
  hears s 30 (rcpt_line to) 252 "Cannot VRFY user"
  /\ code_of (snd (Rcpt s to)) = 252
  /\ msg_of (snd (Rcpt s to)) = "Cannot VRFY user"
  /\ (err_of (snd (Rcpt s to)) = None <-> 252 = 250 \/ 252 = 251)
  /\ (forall e, err_of (snd (Rcpt s to)) = Some e -> Error e = "Cannot VRFY user").
Proof.
  intros s to.
  assert (Hh : hears s 30 (rcpt_line to) 252 "Cannot VRFY user")
    by (repeat split; reflexivity).
  split; [exact Hh|].
  exact (Rcpt_accepts_250_and_251 s to 252 "Cannot VRFY user" Hh).
Defined.

(** C3, as the code has it.  The timer of [cmd] is raced by the send alone:
    over a transport that takes the command at once and a peer that answers
    after 100 s, [cmd] with a timeout of 30 s returns the reply, without
    error, 100 s later.  The claim asks for the timeout error here. *)
Theorem cmd_read_outlasts_timer :
  let s := Sample.session Sample.slow in
  snd (cmd s 30 250 "NOOP") = (250, "OK", None)
  /\ elapsed_ns (text (fst (cmd s 30 250 "NOOP"))) = 100 * 1000000000
  /\ timer_ns 30 = 30 * 1000000000
  /\ timer_ns 30 < send_ns (on_wire s "NOOP") + read_ns (on_wire s "NOOP").
Proof. cbv zeta. repeat split; vm_compute; reflexivity. Qed.

(** In general: once the send returned in time, no length of the read turns
    the result of [cmd] into the timeout error. *)
Lemma cmd_read_is_not_timed s timeoutSeconds expectedCode line :
  closed (text s) = false ->
  timer_first (timer_ns timeoutSeconds) (on_wire s line) = false ->
  send_err (on_wire s line) = None ->
  snd (cmd s timeoutSeconds expectedCode line)
  = ReadResponse expectedCode (reply (on_wire s line)).
Proof.
  intros Hc Ht Hs. unfold on_wire in *. unfold cmd. rewrite Hc, Ht, Hs. reflexivity.
Qed.

(** ** Hello and the extensions *)

Lemma Ehlo_failure GetMe s :
  err_of (snd (Ehlo GetMe s)) = err_of (snd (cmd s 10 250 ("EHLO " +:+ GetMe))).
Proof.
  unfold Ehlo. destruct (cmd s 10 250 _) as [s1 [[code msg] [e|]]]; reflexivity.
Qed.

Lemma Ehlo_keeps_tls GetMe s : tls (fst (Ehlo GetMe s)) = tls s.
Proof.
  unfold Ehlo. pose proof (cmd_keeps s 10 250 ("EHLO " +:+ GetMe)) as (_ & _ & Ht).
  destruct (cmd s 10 250 _) as [s1 [[code msg] [e|]]]; simpl in *; [exact Ht|].
  destruct (ehlo_ext msg !! "AUTH"); simpl; exact Ht.
Qed.

(** C4, as far as the code goes.  [Helo] sets the extension mapping to nil,
    so that no extension is reported afterwards, and leaves the list of
    authentication mechanisms as it found it. *)
Theorem Helo_clears_extensions_only (GetMe : string) (s : smtpClient) :
  ext (fst (Helo GetMe s)) = None
  /\ (forall e, Extension (fst (Helo GetMe s)) e = (false, ""))
  /\ auth (fst (Helo GetMe s)) = auth s.
Proof.
  unfold Helo.
  pose proof (cmd_keeps (set_ext s None) 30 250 ("HELO " +:+ GetMe)) as (He & Ha & _).
  simpl in He, Ha. repeat split; [exact He | | exact Ha].
  intros e. unfold Extension. rewrite He. reflexivity.
Qed.

(** C4 as stated fails: after an EHLO that advertised AUTH PLAIN LOGIN, a
    HELO leaves the two mechanisms in the list. *)
Lemma Helo_keeps_mechanisms :
  let s := fst (Ehlo Sample.me (Sample.session (Sample.by_verb Sample.esmtp))) in
  auth s = ["PLAIN"; "LOGIN"]
  /\ err_of (snd (Helo Sample.me s)) = None
  /\ ~ (ext (fst (Helo Sample.me s)) = None /\ auth (fst (Helo Sample.me s)) = []).
Proof.
  cbv zeta. split; [reflexivity|]. split; [reflexivity|].
  intros [_ Ha]. vm_compute in Ha. discriminate Ha.
Qed.

(** C6, as the code has it.  [Ehlo] files each keyword as the server spelled
    it, and [Extension] looks up the query in capitals.  A server that
    advertises [starttls] and [auth PLAIN LOGIN] in small letters is told to
    support neither, whatever the case of the query, and its mechanisms are
    not taken over. *)
Theorem lowercase_keywords_are_lost :
  let s := fst (Ehlo Sample.me (Sample.session (Sample.by_verb Sample.lowercase))) in
  err_of (snd (Ehlo Sample.me (Sample.session (Sample.by_verb Sample.lowercase)))) = None
  /\ Extension s "starttls" = (false, "")
  /\ Extension s "STARTTLS" = (false, "")
  /\ Extension s "auth" = (false, "")
  /\ auth s = [].
Proof. cbv zeta. repeat split; vm_compute; reflexivity. Qed.

(** A query never reaches a keyword filed with a small letter in it. *)
Lemma ToUpper_idempotent e : strings.ToUpper (strings.ToUpper e) = strings.ToUpper e.
Proof.
  induction e as [|a e IH]; [reflexivity|]. simpl. rewrite IH. f_equal.
  destruct a as [[] [] [] [] [] [] [] []]; reflexivity.
Qed.

Lemma Extension_finds_capitals_only s e param :
  Extension s e = (true, param) ->
  exists m k, ext s = Some m /\ m !! k = Some param /\ strings.ToUpper k = k.
Proof.
  unfold Extension. destruct (ext s) as [m|]; [|discriminate].
  destruct (m !! strings.ToUpper e) as [p|] eqn:E; [|discriminate].
  intros [= <-]. exists m, (strings.ToUpper e).
  split; [reflexivity|]. split; [exact E|]. apply ToUpper_idempotent.
Qed.

(** ** STARTTLS *)

(** C7. After [StartTLS] the TLS flag is set exactly when [StartTLS] returns
    no error, whatever it was before; and the error returned is that of the
    STARTTLS command if it fails, else that of the [Ehlo] run over the
    wrapped connection (which is where a failed handshake shows). *)
Theorem StartTLS_flag_follows_Ehlo (GetMe : string) (s : smtpClient) (config : tls_Config) :
  tls (fst (StartTLS GetMe s config))
  = match err_of (snd (StartTLS GetMe s config)) with
    | None => true
    | Some _ => false
    end
  /\ err_of (snd (StartTLS GetMe s config))
     = match err_of (snd (cmd (set_tls s false) 30 220 "STARTTLS")) with
       | Some e => Some e
       | None => err_of (snd (Ehlo GetMe (upgraded s config)))
       end.
Proof.
  unfold StartTLS, upgraded.
  pose proof (cmd_keeps (set_tls s false) 30 220 "STARTTLS") as (_ & _ & Ht).
  destruct (cmd (set_tls s false) 30 220 "STARTTLS") as [s1 r1]. simpl in Ht |- *.
  destruct (err_of r1) as [e|] eqn:E1.
  - simpl. rewrite E1. auto.
  - pose proof (Ehlo_keeps_tls GetMe
                  (set_text (set_connTLS s1 config) (NewConnTLS (text s1) config))) as Hk.
    destruct (Ehlo GetMe _) as [s3 r3]. simpl in Hk |- *.
    destruct (err_of r3) as [e|] eqn:E3; simpl; rewrite E3; auto.
    split; [|reflexivity]. rewrite Hk. exact Ht.
Qed.

(** ** Establishing the connection *)

Section Establisher.

Variable W : Net.

Lemma settle_timed_out rt a :
  settle rt (att_outcome a) = None -> timed_out a = true.
Proof.
  unfold settle, timed_out. destruct (att_outcome a) as [|e|c]; [reflexivity|discriminate|].
  destruct (err_of _); discriminate.
Qed.

Lemma try_remotes_shape rt localIP remotes : forall r,
  forallb timed_out (attempts r) = true ->
  match try_remotes W rt localIP remotes r with
  | Continue r' => forallb timed_out (attempts r') = true
  | Return res r' => decided_by_latest res r'
  end.
Proof.
  induction remotes as [|remoteAddr rest IH]; intros r Hr; simpl; [exact Hr|].
  destruct (negb _); [apply IH; exact Hr|].
  destruct (ResolveTCPAddr W _) as [e|localAddr]; [left; exact Hr|].
  set (o := DialTCP W _ localAddr remoteAddr).
  set (a := {| att_local := localIP; att_remote := remoteAddr; att_outcome := o |}).
  destruct (settle rt o) as [res|] eqn:Es.
  - right. exists rt, a, (attempts r). repeat split; assumption.
  - apply IH. simpl. rewrite (settle_timed_out rt a Es). exact Hr.
Qed.

Lemma try_locals_shape rt remotes localIPs : forall r,
  forallb timed_out (attempts r) = true ->
  match try_locals W rt localIPs remotes r with
  | Continue r' => forallb timed_out (attempts r') = true
  | Return res r' => decided_by_latest res r'
  end.
Proof.
  induction localIPs as [|localIP rest IH]; intros r Hr; simpl; [exact Hr|].
  pose proof (try_remotes_shape rt localIP remotes r Hr) as Hs.
  destruct (try_remotes W rt localIP remotes r) as [r'|res r']; [apply IH|]; exact Hs.
Qed.

Lemma try_route_shape rt r :
  forallb timed_out (attempts r) = true ->
  match try_route W rt r with
  | Continue r' => forallb timed_out (attempts r') = true
  | Return res r' => decided_by_latest res r'
  end.
Proof.
  intros Hr. unfold try_route.
  destruct (local_ip_strings rt _) as [e|[sIps drawn]]; [left; exact Hr|].
  assert (Hr1 : forallb timed_out (attempts (if drawn then drew r else r)) = true)
    by (destruct drawn; exact Hr).
  destruct (parse_local W _ sIps) as [e|localIPs]; [left; exact Hr1|].
  destruct (remote_addresses W rt) as [e|remotes]; [left; exact Hr1|].
  apply try_locals_shape. exact Hr1.
Qed.

Lemma try_routes_shape routes : forall r,
  forallb timed_out (attempts r) = true ->
  decided_by_latest (fst (try_routes W routes r)) (snd (try_routes W routes r)).
Proof.
  induction routes as [|rt rest IH]; intros r Hr; simpl; [left; exact Hr|].
  pose proof (try_route_shape rt r Hr) as Hs.
  destruct (try_route W rt r) as [r'|res r']; [apply IH|]; exact Hs.
Qed.

(** C10. In every call of [newSMTPClient] that makes an attempt whose
    connect succeeds and whose greeting is not read as a 220 line, the
    function returns a nil client together with a nil error. *)
Theorem bad_greeting_returns_nil_nil (routes : list Route) (a : attempt) :
  In a (attempts (snd (newSMTPClient W routes))) ->
  bad_greeting a = true ->
  fst (newSMTPClient W routes) = (None, None).
Proof.
  intros Hin Hbad. unfold newSMTPClient in *.
  assert (Hnot : timed_out a = false).
  { unfold bad_greeting in Hbad. unfold timed_out.
    destruct (att_outcome a); [discriminate|reflexivity|reflexivity]. }
  destruct (try_routes_shape routes run0 eq_refl)
    as [Hall | (rt & a' & rest & Hatt & Hrest & Hset)].
  - rewrite forallb_forall in Hall. rewrite (Hall a Hin) in Hnot. discriminate.
  - rewrite Hatt in Hin. destruct Hin as [<- | Hin].
    + unfold bad_greeting in Hbad. unfold settle in Hset.
      destruct (att_outcome a') as [|e|c]; [discriminate|discriminate|].
      destruct (err_of _); [|discriminate]. injection Hset as <-. reflexivity.
    + rewrite forallb_forall in Hrest. rewrite (Hrest a Hin) in Hnot. discriminate.
Qed.

End Establisher.

Lemma bad_greeting_returns_nil_nil_witness :
  let routes := [Sample.route1; Sample.route2] in
  let a := {| att_local := [10; 0; 0; 1];
              att_remote := {| addr_IP := [192; 0; 2; 1]; addr_Port := 25 |};
              att_outcome :=
                Connected {| greeting := Reply 554 "No SMTP service here";
                             peer := Sample.by_verb Sample.esmtp; sent := [];
                             closed := false; elapsed_ns := 0; secured := None |} |} in
  In a (attempts (snd (newSMTPClient Sample.net routes)))
  /\ bad_greeting a = true
  /\ fst (newSMTPClient Sample.net routes) = (None, None).
Proof.
  intros routes a.
  assert (Hin : In a (attempts (snd (newSMTPClient Sample.net routes))))
    by (left; reflexivity).
  assert (Hbad : bad_greeting a = true) by reflexivity.
  split; [exact Hin|]. split; [exact Hbad|].
  exact (bad_greeting_returns_nil_nil Sample.net routes a Hin Hbad).
Defined.

(** C1, as the code has it.  The first candidate connects and greets with
    554; the second, of the next route, would greet with 220 and does so
    when tried alone.  [newSMTPClient] makes one attempt and returns, with
    neither a client nor an error: the search does not go on. *)
Theorem bad_greeting_ends_the_search :
  fst (newSMTPClient Sample.net [Sample.route1; Sample.route2]) = (None, None)
  /\ length (attempts (snd (newSMTPClient Sample.net [Sample.route1; Sample.route2])))
     = 1%nat
  /\ exists c, fst (newSMTPClient Sample.net [Sample.route2]) = (Some c, None).
Proof.
  split; [reflexivity|]. split; [reflexivity|]. eexists. reflexivity.
Qed.

(** C2, as the code has it.  The permutation is applied to every split list,
    the failover list included: when [rand.Perm(2)] draws [[1, 0]], the route
    [10.0.0.1&10.0.0.2] is tried from 10.0.0.2 first. *)
Theorem failover_list_is_reordered :
  local_ip_strings Sample.failover_route (Perm Sample.net 0)
  = inr (["10.0.0.2"; "10.0.0.1"], true)
  /\ map att_local (attempts (snd (newSMTPClient Sample.net [Sample.failover_route])))
     = [[10; 0; 0; 2]].
Proof. split; reflexivity. Qed.

(** For a failover specification the order is that of the draw. *)
Lemma failover_order_is_drawn rt perm :
  strings.Count (LocalIp rt) "&" <> 0 ->
  strings.Count (LocalIp rt) "|" = 0 ->
  local_ip_strings rt perm = inr (split_and_place (LocalIp rt) "&" perm, true).
Proof.
  intros Hf Hr. unfold local_ip_strings. rewrite Hr.
  apply Z.eqb_neq in Hf. rewrite Hf. reflexivity.
Qed.

(** ** AUTH *)

Section Negotiator.

Variable GetMe : string.
Variable encoding : Encoding.
Context {A : Type} `{DeliverdAuth A}.

Lemma dispatch_235 msg64 : dispatch encoding 235 msg64 = inr (list_byte_of_string msg64).
Proof. reflexivity. Qed.

(** The loop only ever adds to the calls it was entered with. *)
Lemma auth_loop_appends fuel : forall a s r calls out,
  auth_loop encoding fuel a s r calls = Some out ->
  exists later, end_calls out = (calls ++ later)%list.
Proof.
  induction fuel as [|fuel IH]; intros a s [[code msg64] err] calls out; simpl.
  - destruct err; [|discriminate]. intros [= <-]. exists []. simpl.
    symmetry. apply app_nil_r.
  - destruct err as [e|].
    { intros [= <-]. exists []. simpl. symmetry. apply app_nil_r. }
    destruct (dispatch encoding code msg64) as [e|msg].
    { intros [= <-]. exists []. simpl. symmetry. apply app_nil_r. }
    destruct (Next a msg (code =? 334)) as [a' [resp err']].
    destruct err' as [e|].
    { intros [= <-]. eexists. reflexivity. }
    destruct resp as [resp'|].
    + destruct (cmd s 30 0 _) as [s' r']. intros Hl.
      destruct (IH _ _ _ _ _ Hl) as [later Hlater].
      exists ({| fromServer := msg; more := code =? 334 |} :: later).
      rewrite Hlater, <- app_assoc. reflexivity.
    + intros [= <-]. eexists. reflexivity.
Qed.


(** Whatever [Next] answers to it, that first call is made. *)
Lemma Auth_235_calls_Next (fuel : nat) (a a1 : A) (s : smtpClient)
    (mech : string) (resp : bytes) (msg : string) (out : auth_end A) :
  Start a {| Name := GetMe; TLS := tls s; Auth_mechs := auth s |}
    = (a1, (mech, resp, None)) ->
  hears s 30 (auth_line encoding mech resp) 235 msg ->
  Auth GetMe encoding fuel a s = Some out ->
  exists later,
    end_calls out = {| fromServer := list_byte_of_string msg; more := false |} :: later.
Proof.
  intros Hstart Hh. unfold Auth. rewrite Hstart.
  fold (auth_line encoding mech resp). rewrite (cmd_hears _ _ 0 _ _ _ Hh).
  cbn [ReadResponse]. replace (code_mismatch 0 235) with false by reflexivity.
  destruct fuel as [|fuel]; [discriminate|].
  cbn [auth_loop]. rewrite dispatch_235.
  replace (235 =? 334) with false by reflexivity.
  destruct (Next a1 (list_byte_of_string msg) false) as [a' [r' err']].
  destruct err' as [e|].
  { intros [= <-]. eexists. reflexivity. }
  destruct r' as [resp'|].
  - destruct (cmd _ 30 0 _) as [s' r'']. intros Hl.
    destruct (auth_loop_appends _ _ _ _ _ _ Hl) as [later Hlater].
    exists later. rewrite Hlater. reflexivity.
  - intros [= <-]. eexists. reflexivity.
Qed.

End Negotiator.



(** * Further properties of the client *)

(** ** More on the command primitive *)

Lemma code_mismatch_three_digits expectedCode code :
  100 <= expectedCode < 1000 ->
  code_mismatch expectedCode code = negb (code =? expectedCode).
Proof.
  intros [Hlo Hhi]. unfold code_mismatch.
  replace (expectedCode <? 10) with false by (symmetry; apply Z.ltb_ge; lia).
  replace (expectedCode <? 100) with false by (symmetry; apply Z.ltb_ge; lia).
  replace (100 <=? expectedCode) with true by (symmetry; apply Z.leb_le; lia).
  replace (expectedCode <? 1000) with true by (symmetry; apply Z.ltb_lt; lia).
  rewrite !andb_false_r. reflexivity.
Qed.

(** What [cmd] leaves alone. *)
Lemma cmd_frame s timeoutSeconds expectedCode line :
  let s' := fst (cmd s timeoutSeconds expectedCode line) in
  route s' = route s /\ connTLS s' = connTLS s /\ ext s' = ext s
  /\ auth s' = auth s /\ tls s' = tls s
  /\ closed (text s') = closed (text s) /\ secured (text s') = secured (text s)
  /\ peer (text s') = peer (text s) /\ greeting (text s') = greeting (text s).
Proof.
  unfold cmd. destruct (closed (text s)) eqn:Hc; [simpl; rewrite Hc; repeat split|].
  destruct (timer_first _ _); [simpl; rewrite Hc; repeat split|].
  destruct (send_err _); simpl; rewrite Hc; repeat split.
Qed.

Lemma cmd_sent_open s timeoutSeconds expectedCode line :
  closed (text s) = false ->
  sent (text (fst (cmd s timeoutSeconds expectedCode line))) = line :: sent (text s).
Proof.
  intros Hc. unfold cmd. rewrite Hc.
  destruct (timer_first _ _); [reflexivity|]. destruct (send_err _); reflexivity.
Qed.

Lemma cmd_no_error s timeoutSeconds expectedCode line :
  err_of (snd (cmd s timeoutSeconds expectedCode line)) = None ->
  exists code msg,
    hears s timeoutSeconds line code msg
    /\ code_mismatch expectedCode code = false
    /\ snd (cmd s timeoutSeconds expectedCode line) = (code, msg, None).
Proof.
  unfold cmd, hears, on_wire. destruct (closed (text s)); [discriminate|].
  destruct (timer_first _ _); [discriminate|].
  destruct (send_err _); [discriminate|].
  destruct (reply _) as [code msg|e]; [|discriminate]. simpl.
  destruct (code_mismatch expectedCode code) eqn:Em; [discriminate|].
  intros _. exists code, msg. repeat split. exact Em.
Qed.

Lemma cmd_expected_read s timeoutSeconds expectedCode line msg :
  100 <= expectedCode < 1000 ->
  hears s timeoutSeconds line expectedCode msg ->
  snd (cmd s timeoutSeconds expectedCode line) = (expectedCode, msg, None).
Proof.
  intros Hec Hh. rewrite (cmd_hears _ _ expectedCode _ _ _ Hh). simpl.
  rewrite (code_mismatch_three_digits _ _ Hec), Z.eqb_refl. reflexivity.
Qed.

Lemma cmd_no_error_expected s timeoutSeconds expectedCode line :
  100 <= expectedCode < 1000 ->
  err_of (snd (cmd s timeoutSeconds expectedCode line)) = None ->
  exists msg, hears s timeoutSeconds line expectedCode msg.
Proof.
  intros Hec He. destruct (cmd_no_error _ _ _ _ He) as (code & msg & Hh & Hm & _).
  rewrite (code_mismatch_three_digits _ _ Hec) in Hm.
  apply negb_false_iff, Z.eqb_eq in Hm. subst code. exists msg. exact Hh.
Qed.

(** X1.  With an expected code of three digits, [cmd] returns no error exactly
    when the reply is read and carries that code; it then returns the code
    and the text of the reply. *)
Theorem cmd_succeeds_on_expected_code s timeoutSeconds expectedCode line :
  100 <= expectedCode < 1000 ->
  (err_of (snd (cmd s timeoutSeconds expectedCode line)) = None
   <-> exists msg, hears s timeoutSeconds line expectedCode msg)
  /\ (forall msg, hears s timeoutSeconds line expectedCode msg ->
      snd (cmd s timeoutSeconds expectedCode line) = (expectedCode, msg, None)).
Proof.
  intros Hec. split; [split|].
  - apply cmd_no_error_expected. exact Hec.
  - intros [msg Hh]. rewrite (cmd_expected_read _ _ _ _ _ Hec Hh). reflexivity.
  - intros msg Hh. apply cmd_expected_read; assumption.
Qed.

Lemma cmd_succeeds_on_expected_code_witness :
  let s := Sample.session (Sample.by_verb Sample.esmtp) in
  100 <= 221 < 1000
  /\ (err_of (snd (cmd s 10 221 "QUIT")) = None
      <-> exists msg, hears s 10 "QUIT" 221 msg)
  /\ (forall msg, hears s 10 "QUIT" 221 msg ->
      snd (cmd s 10 221 "QUIT") = (221, msg, None)).
Proof.
  intros s. assert (Hec : 100 <= 221 < 1000) by lia.
  split; [exact Hec|]. exact (cmd_succeeds_on_expected_code s 10 221 "QUIT" Hec).
Defined.

(** X2.  A reply with another code than the three-digit code expected comes
    back with its code and text, and as a [textproto.Error] of that code
    and text. *)
Theorem cmd_reports_other_code s timeoutSeconds expectedCode line code msg :
  100 <= expectedCode < 1000 ->
  hears s timeoutSeconds line code msg ->
  code <> expectedCode ->
  snd (cmd s timeoutSeconds expectedCode line)
  = (code, msg, Some (textproto_Error code msg)).
Proof.
  intros Hec Hh Hne. rewrite (cmd_hears _ _ expectedCode _ _ _ Hh). simpl.
  rewrite (code_mismatch_three_digits _ _ Hec).
  apply Z.eqb_neq in Hne. rewrite Hne. reflexivity.
Qed.

Lemma cmd_reports_other_code_witness :
  let s := Sample.session (Sample.by_verb Sample.helo_only) in
  100 <= 250 < 1000
  /\ hears s 10 "EHLO mail.tmail.test" 502 "command not implemented"
  /\ 502 <> 250
  /\ snd (cmd s 10 250 "EHLO mail.tmail.test")
     = (502, "command not implemented",
        Some (textproto_Error 502 "command not implemented")).
Proof.
  intros s. assert (Hec : 100 <= 250 < 1000) by lia.
  assert (Hh : hears s 10 "EHLO mail.tmail.test" 502 "command not implemented")
    by (repeat split; reflexivity).
  assert (Hne : 502 <> 250) by lia.
  split; [exact Hec|]. split; [exact Hh|]. split; [exact Hne|].
  exact (cmd_reports_other_code s 10 250 _ 502 _ Hec Hh Hne).
Defined.


(** ** More on the envelope commands *)

(** X3.  [Noop] expects the code 200.  Of a reply that is read it returns the
    code and the text, and an error unless the code is 200: the 250 with
    which servers answer NOOP comes back as a [textproto.Error]. *)
Theorem Noop_wants_200 s code msg :
  hears s 30 "NOOP" code msg ->
  snd (Noop s)
  = (code, msg, if code =? 200 then None else Some (textproto_Error code msg)).
Proof.
  intros Hh. unfold Noop. rewrite (cmd_hears _ _ 200 _ _ _ Hh). simpl.
  rewrite (code_mismatch_three_digits 200 code) by lia.
  destruct (code =? 200); reflexivity.
Qed.

Lemma Noop_wants_200_witness :
  let s := Sample.session (Sample.by_verb Sample.agreeable) in
  hears s 30 "NOOP" 250 "OK"
  /\ snd (Noop s) = (250, "OK", Some (textproto_Error 250 "OK")).
Proof.
  intros s. assert (Hh : hears s 30 "NOOP" 250 "OK") by (repeat split; reflexivity).
  split; [exact Hh|]. exact (Noop_wants_200 s 250 "OK" Hh).
Defined.



(** X5.  [Data] hands out a writer exactly when the reply to DATA is read with
    code 354, and exactly when it returns no error; the writer is bound to
    the session as the command left it. *)
Theorem Data_writer_iff_354 s :
  (is_Some (fst (snd (Data s))) <-> exists msg, hears s 30 "DATA" 354 msg)
  /\ (is_Some (fst (snd (Data s))) <-> err_of (snd (snd (Data s))) = None)
  /\ (forall w, fst (snd (Data s)) = Some w -> dc_s w = fst (Data s)).
Proof.
  assert (Hec : 100 <= 354 < 1000) by lia.
  pose proof (cmd_no_error_expected s 30 354 "DATA" Hec) as Hread.
  assert (Hiff : (exists msg, hears s 30 "DATA" 354 msg) ->
                 err_of (snd (cmd s 30 354 "DATA")) = None).
  { intros [msg Hh]. rewrite (cmd_expected_read _ _ _ _ _ Hec Hh). reflexivity. }
  unfold Data.
  destruct (cmd s 30 354 "DATA") as [s1 [[code msg] [e|]]]; simpl in *.
  - split; [|split].
    + split; [intros [w Hw]; discriminate|].
      intros Hex. apply Hiff in Hex. discriminate.
    + split; [intros [w Hw]; discriminate|discriminate].
    + discriminate.
  - split; [|split].
    + split; [intros _; apply Hread; reflexivity|intros _; eexists; reflexivity].
    + split; [reflexivity|intros _; eexists; reflexivity].
    + intros w [= <-]. reflexivity.
Qed.

(** ** More on establishing the connection *)

Lemma greeting_220 c :
  err_of (ReadResponse 220 (greeting c)) = None <-> exists msg, greeting c = Reply 220 msg.
Proof.
  destruct (greeting c) as [code msg|e]; simpl.
  - rewrite (code_mismatch_three_digits 220 code) by lia.
    destruct (code =? 220) eqn:E; simpl.
    + apply Z.eqb_eq in E. subst. split; [eauto|reflexivity].
    + apply Z.eqb_neq in E. split; [discriminate|]. intros [m [= Hc _]]. contradiction.
  - split; [discriminate|]. intros [m Hm]. discriminate.
Qed.

Lemma settle_some rt o res :
  settle rt o = Some res ->
  timed_out {| att_local := []; att_remote := {| addr_IP := []; addr_Port := 0 |};
               att_outcome := o |} = false.
Proof. destruct o; [discriminate|reflexivity|reflexivity]. Qed.

Section Search.

Variable W : Net.
Variable routes : list Route.

Lemma try_remotes_outcome rt localIP remotes : forall r,
  In rt routes ->
  forallb timed_out (attempts r) = true ->
  match try_remotes W rt localIP remotes r with
  | Continue r' => forallb timed_out (attempts r') = true
  | Return res r' => outcome_shape routes res r'
  end.
Proof.
  intros r Hrt. revert r.
  induction remotes as [|remoteAddr rest IH]; intros r Hr; simpl; [exact Hr|].
  destruct (negb _); [apply IH; exact Hr|].
  destruct (ResolveTCPAddr W _) as [e|localAddr]; [left; split; [exact Hr|eauto]|].
  set (o := DialTCP W _ localAddr remoteAddr).
  set (a := {| att_local := localIP; att_remote := remoteAddr; att_outcome := o |}).
  destruct (settle rt o) as [res|] eqn:Es.
  - right. exists rt, a, (attempts r). repeat split; try assumption.
    apply settle_some in Es. exact Es.
  - apply IH. simpl. rewrite (settle_timed_out rt a Es). exact Hr.
Qed.

Lemma try_locals_outcome rt remotes localIPs : forall r,
  In rt routes ->
  forallb timed_out (attempts r) = true ->
  match try_locals W rt localIPs remotes r with
  | Continue r' => forallb timed_out (attempts r') = true
  | Return res r' => outcome_shape routes res r'
  end.
Proof.
  intros r Hrt. revert r.
  induction localIPs as [|localIP rest IH]; intros r Hr; simpl; [exact Hr|].
  pose proof (try_remotes_outcome rt localIP remotes r Hrt Hr) as Hs.
  destruct (try_remotes W rt localIP remotes r) as [r'|res r']; [apply IH|]; exact Hs.
Qed.

Lemma try_route_outcome rt r :
  In rt routes ->
  forallb timed_out (attempts r) = true ->
  match try_route W rt r with
  | Continue r' => forallb timed_out (attempts r') = true
  | Return res r' => outcome_shape routes res r'
  end.
Proof.
  intros Hrt Hr. unfold try_route.
  destruct (local_ip_strings rt _) as [e|[sIps drawn]]; [left; split; [exact Hr|eauto]|].
  assert (Hr1 : forallb timed_out (attempts (if drawn then drew r else r)) = true)
    by (destruct drawn; exact Hr).
  destruct (parse_local W _ sIps) as [e|localIPs]; [left; split; [exact Hr1|eauto]|].
  destruct (remote_addresses W rt) as [e|remotes]; [left; split; [exact Hr1|eauto]|].
  apply try_locals_outcome; assumption.
Qed.

Lemma try_routes_outcome some : forall r,
  (forall rt, In rt some -> In rt routes) ->
  forallb timed_out (attempts r) = true ->
  outcome_shape routes (fst (try_routes W some r)) (snd (try_routes W some r)).
Proof.
  induction some as [|rt rest IH]; intros r Hsub Hr; simpl.
  - left. split; [exact Hr|eauto].
  - pose proof (try_route_outcome rt r (Hsub rt (or_introl eq_refl)) Hr) as Hs.
    destruct (try_route W rt r) as [r'|res r']; [|exact Hs].
    apply IH; [|exact Hs]. intros rt' Hin. apply Hsub. right. exact Hin.
Qed.

Lemma newSMTPClient_outcome :
  outcome_shape routes (fst (newSMTPClient W routes)) (snd (newSMTPClient W routes)).
Proof. apply try_routes_outcome; [auto|reflexivity]. Qed.

(** X6.  A client is returned without an error, for a route of the list, over
    the socket of the latest attempt, whose greeting was a 220 line; the
    client starts with no extension mapping, TLS off and no mechanism; every
    attempt before that one timed out. *)
Theorem newSMTPClient_client c err :
  fst (newSMTPClient W routes) = (Some c, err) ->
  err = None
  /\ exists rt conn msg a rest,
       In rt routes
       /\ attempts (snd (newSMTPClient W routes)) = a :: rest
       /\ att_outcome a = Connected conn
       /\ greeting conn = Reply 220 msg
       /\ c = new_client rt conn
       /\ forallb timed_out rest = true.
Proof.
  intros Hres.
  destruct newSMTPClient_outcome as [[_ [e He]] | (rt & a & rest & Hrt & Hatt & Hrest & _ & Hset)].
  - rewrite Hres in He. discriminate.
  - rewrite Hres in Hset. unfold settle in Hset.
    destruct (att_outcome a) as [|e|conn] eqn:Eo; [discriminate|discriminate|].
    destruct (err_of (ReadResponse 220 (greeting conn))) eqn:Eg; [discriminate|].
    apply greeting_220 in Eg. destruct Eg as [msg Hmsg].
    injection Hset as <- <-. split; [reflexivity|].
    exists rt, conn, msg, a, rest. repeat split; assumption.
Qed.


(** X8.  A dial that fails ends the search: [newSMTPClient] returns the error
    of that dial, and no client. *)
Theorem dial_failure_is_returned a e :
  In a (attempts (snd (newSMTPClient W routes))) ->
  att_outcome a = DialFailed e ->
  fst (newSMTPClient W routes) = (None, Some e).
Proof.
  intros Hin Ho.
  destruct newSMTPClient_outcome
    as [[Hall _] | (rt & a' & rest & Hrt & Hatt & Hrest & Hnot & Hset)].
  - rewrite forallb_forall in Hall. specialize (Hall a Hin).
    unfold timed_out in Hall. rewrite Ho in Hall. discriminate.
  - rewrite Hatt in Hin. destruct Hin as [<- | Hin].
    + rewrite Ho in Hset. simpl in Hset. injection Hset as <-. reflexivity.
    + rewrite forallb_forall in Hrest. specialize (Hrest a Hin).
      unfold timed_out in Hrest. rewrite Ho in Hrest. discriminate.
Qed.

(** X9.  The candidates are tried one after the other and the first that does
    not time out ends the search: of the attempts of a call, all but the
    latest timed out. *)
Theorem only_the_latest_attempt_decides :
  forallb timed_out (tail (attempts (snd (newSMTPClient W routes)))) = true.
Proof.
  destruct newSMTPClient_outcome
    as [[Hall _] | (rt & a & rest & _ & Hatt & Hrest & _ & _)].
  - destruct (attempts _) as [|a rest]; [reflexivity|]. simpl in *.
    apply andb_true_iff in Hall. tauto.
  - rewrite Hatt. exact Hrest.
Qed.

(** X10.  When every dial times out, [newSMTPClient] returns an error and no
    client. *)
Theorem all_timeouts_give_an_error :
  (forall k localAddr remoteAddr, DialTCP W k localAddr remoteAddr = TimedOut) ->
  exists e, fst (newSMTPClient W routes) = (None, Some e).
Proof.
  intros Hdial.
  destruct newSMTPClient_outcome
    as [[_ He] | (rt & a & rest & _ & Hatt & _ & Hnot & _)]; [exact He|].
  exfalso.
  assert (Hall : forall some r,
             Forall (fun a => timed_out a = true) (attempts r) ->
             Forall (fun a => timed_out a = true) (attempts (snd (try_routes W some r)))).
  { clear - Hdial. induction some as [|rt rest IH]; intros r Hr; [exact Hr|]. simpl.
    assert (Hroute : match try_route W rt r with
                     | Continue r' | Return _ r' =>
                         Forall (fun a => timed_out a = true) (attempts r')
                     end).
    { unfold try_route. destruct (local_ip_strings rt _) as [e|[sIps drawn]]; [exact Hr|].
      assert (Hr1 : Forall (fun a => timed_out a = true)
                      (attempts (if drawn then drew r else r)))
        by (destruct drawn; exact Hr).
      destruct (parse_local W _ sIps) as [e|localIPs]; [exact Hr1|].
      destruct (remote_addresses W rt) as [e|remotes]; [exact Hr1|].
      generalize dependent (if drawn then drew r else r). clear r Hr.
      induction localIPs as [|localIP ls IHl]; intros r Hr; simpl; [exact Hr|].
      assert (Hrem : match try_remotes W rt localIP remotes r with
                     | Continue r' | Return _ r' =>
                         Forall (fun a => timed_out a = true) (attempts r')
                     end).
      { clear IHl. revert r Hr.
        induction remotes as [|remoteAddr rs IHr]; intros r Hr; simpl; [exact Hr|].
        destruct (negb _); [apply IHr; exact Hr|].
        destruct (ResolveTCPAddr W _) as [e|localAddr]; [exact Hr|].
        rewrite Hdial. simpl. apply IHr. simpl. constructor; [reflexivity|exact Hr]. }
      destruct (try_remotes W rt localIP remotes r) as [r'|res r']; [|exact Hrem].
      apply IHl. exact Hrem. }
    destruct (try_route W rt r) as [r'|res r']; [apply IH|]; exact Hroute. }
  specialize (Hall routes run0 ltac:(constructor)). fold (newSMTPClient W routes) in Hall.
  rewrite Hatt in Hall. inversion Hall as [|? ? Ha _]. congruence.
Qed.

End Search.

Lemma newSMTPClient_client_witness :
  let routes := [Sample.route2] in
  let c := new_client Sample.route2 (Sample.fresh (Sample.by_verb Sample.esmtp)) in
  fst (newSMTPClient Sample.net routes) = (Some c, None)
  /\ (@None error = None
      /\ exists rt conn msg a rest,
           In rt routes
           /\ attempts (snd (newSMTPClient Sample.net routes)) = a :: rest
           /\ att_outcome a = Connected conn
           /\ greeting conn = Reply 220 msg
           /\ c = new_client rt conn
           /\ forallb timed_out rest = true).
Proof.
  intros routes c.
  assert (Hres : fst (newSMTPClient Sample.net routes) = (Some c, None)) by reflexivity.
  split; [exact Hres|]. exact (newSMTPClient_client Sample.net routes c None Hres).
Defined.

Lemma dial_failure_is_returned_witness :
  let routes := [Sample.route1; Sample.route2] in
  let e := io_error "connect: connection refused" in
  let a := {| att_local := [10; 0; 0; 1];
              att_remote := {| addr_IP := [192; 0; 2; 1]; addr_Port := 25 |};
              att_outcome := DialFailed e |} in
  In a (attempts (snd (newSMTPClient Sample.refusing routes)))
  /\ att_outcome a = DialFailed e
  /\ fst (newSMTPClient Sample.refusing routes) = (None, Some e).
Proof.
  intros routes e a.
  assert (Hin : In a (attempts (snd (newSMTPClient Sample.refusing routes))))
    by (left; reflexivity).
  assert (Ho : att_outcome a = DialFailed e) by reflexivity.
  split; [exact Hin|]. split; [exact Ho|].
  exact (dial_failure_is_returned Sample.refusing routes a e Hin Ho).
Defined.

Lemma all_timeouts_give_an_error_witness :
  (forall k localAddr remoteAddr, DialTCP Sample.dual k localAddr remoteAddr = TimedOut)
  /\ exists e, fst (newSMTPClient Sample.dual [Sample.dual_route]) = (None, Some e).
Proof.
  assert (Hdial : forall k localAddr remoteAddr,
             DialTCP Sample.dual k localAddr remoteAddr = TimedOut)
    by (intros; reflexivity).
  split; [exact Hdial|].
  exact (all_timeouts_give_an_error Sample.dual [Sample.dual_route] Hdial).
Defined.

(** Of the two local addresses of the route, one of each family, only the
    IPv4 one is paired with the IPv4 remote address. *)
Example only_one_family_is_dialled :
  map att_local (attempts (snd (newSMTPClient Sample.dual [Sample.dual_route])))
  = [[10; 0; 0; 1]]
  /\ fst (newSMTPClient Sample.dual [Sample.dual_route]) = (None, Some exhausted).
Proof. split; reflexivity. Qed.

Section Pairs.

Variable W : Net.
Variable routes : list Route.

Lemma remote_addresses_port rt remotes :
  remote_addresses W rt = inr remotes ->
  Forall (fun ra => addr_Port ra = RemotePort rt) remotes.
Proof.
  unfold remote_addresses. destruct (ParseIP W (RemoteHost rt)) as [ip|].
  - intros [= <-]. repeat constructor.
  - destruct (LookupIP W (RemoteHost rt)) as [e|ips]; [discriminate|].
    intros [= <-]. induction ips as [|i ips IH]; constructor; [reflexivity|exact IH].
Qed.

Lemma try_remotes_paired rt localIP remotes : forall r,
  In rt routes ->
  Forall (fun ra => addr_Port ra = RemotePort rt) remotes ->
  Forall (paired W routes) (attempts r) ->
  match try_remotes W rt localIP remotes r with
  | Continue r' | Return _ r' => Forall (paired W routes) (attempts r')
  end.
Proof.
  intros r Hrt. revert r.
  induction remotes as [|remoteAddr rest IH]; intros r Hports Hr; simpl; [exact Hr|].
  inversion Hports as [|? ? Hport Hrest]; subst.
  destruct (negb _) eqn:Efam; [apply IH; assumption|].
  destruct (ResolveTCPAddr W _) as [e|localAddr]; [exact Hr|].
  set (o := DialTCP W _ localAddr remoteAddr).
  assert (Hnew : Forall (paired W routes)
            ({| att_local := localIP; att_remote := remoteAddr; att_outcome := o |}
             :: attempts r)).
  { constructor; [|exact Hr]. split.
    - unfold same_family. simpl. apply negb_false_iff in Efam. exact Efam.
    - exists rt. split; [exact Hrt|exact Hport]. }
  destruct (settle rt o) as [res|]; [exact Hnew|].
  apply IH; assumption.
Qed.

Lemma try_route_paired rt r :
  In rt routes ->
  Forall (paired W routes) (attempts r) ->
  match try_route W rt r with
  | Continue r' | Return _ r' => Forall (paired W routes) (attempts r')
  end.
Proof.
  intros Hrt Hr. unfold try_route.
  destruct (local_ip_strings rt _) as [e|[sIps drawn]]; [exact Hr|].
  assert (Hr1 : Forall (paired W routes) (attempts (if drawn then drew r else r)))
    by (destruct drawn; exact Hr).
  destruct (parse_local W _ sIps) as [e|localIPs]; [exact Hr1|].
  destruct (remote_addresses W rt) as [e|remotes] eqn:Erem; [exact Hr1|].
  apply remote_addresses_port in Erem.
  generalize dependent (if drawn then drew r else r). clear r Hr.
  induction localIPs as [|localIP ls IH]; intros r Hr; simpl; [exact Hr|].
  pose proof (try_remotes_paired rt localIP remotes r Hrt Erem Hr) as Hrem.
  destruct (try_remotes W rt localIP remotes r) as [r'|res r']; [|exact Hrem].
  apply IH. exact Hrem.
Qed.

Lemma try_routes_paired some : forall r,
  (forall rt, In rt some -> In rt routes) ->
  Forall (paired W routes) (attempts r) ->
  Forall (paired W routes) (attempts (snd (try_routes W some r))).
Proof.
  induction some as [|rt rest IH]; intros r Hsub Hr; simpl; [exact Hr|].
  pose proof (try_route_paired rt r (Hsub rt (or_introl eq_refl)) Hr) as Hs.
  destruct (try_route W rt r) as [r'|res r']; [|exact Hs].
  apply IH; [|exact Hs]. intros rt' Hin. apply Hsub. right. exact Hin.
Qed.

(** X11.  Every attempt pairs a local and a remote address of one family, as
    [IsIPV4] tells them apart, and goes to the port of a route of the list. *)
Theorem attempts_pair_one_family a :
  In a (attempts (snd (newSMTPClient W routes))) ->
  same_family W a = true
  /\ exists rt, In rt routes /\ addr_Port (att_remote a) = RemotePort rt.
Proof.
  intros Hin.
  pose proof (try_routes_paired routes run0 (fun _ H => H) ltac:(constructor)) as Hall.
  rewrite List.Forall_forall in Hall. exact (Hall a Hin).
Qed.

End Pairs.

Lemma attempts_pair_one_family_witness :
  let a := {| att_local := [10; 0; 0; 1];
              att_remote := {| addr_IP := [192; 0; 2; 2]; addr_Port := 25 |};
              att_outcome := TimedOut |} in
  In a (attempts (snd (newSMTPClient Sample.dual [Sample.dual_route])))
  /\ same_family Sample.dual a = true
  /\ exists rt, In rt [Sample.dual_route] /\ addr_Port (att_remote a) = RemotePort rt.
Proof.
  intros a.
  assert (Hin : In a (attempts (snd (newSMTPClient Sample.dual [Sample.dual_route]))))
    by (left; reflexivity).
  split; [exact Hin|].
  exact (attempts_pair_one_family Sample.dual [Sample.dual_route] a Hin).
Defined.

(** ** The local addresses of a route *)

Lemma Count_nonneg s sep : 0 <= strings.Count s sep.
Proof. induction s as [|a s IH]; simpl; [lia|]. destruct (Ascii.eqb a sep); lia. Qed.

Lemma Split_length s sep :
  Z.of_nat (length (strings.Split s sep)) = strings.Count s sep + 1.
Proof.
  induction s as [|a s IH]; [reflexivity|]. cbn [strings.Split strings.Count].
  pose proof (Count_nonneg s sep) as Hc.
  destruct (Ascii.eqb a sep).
  - cbn [length]. lia.
  - destruct (strings.Split s sep) as [|h t]; cbn [length] in *; lia.
Qed.

Lemma place_length perm : forall sIps rSIps,
  length (place perm sIps rSIps) = length rSIps.
Proof.
  induction perm as [|v perm IH]; intros [|x sIps] rSIps; simpl; try reflexivity.
  rewrite IH. apply length_insert.
Qed.

Lemma place_untouched perm : forall sIps rSIps (v : nat),
  v ∉ perm -> place perm sIps rSIps !! v = rSIps !! v.
Proof.
  induction perm as [|w perm IH]; intros [|x sIps] rSIps v Hv; simpl; try reflexivity.
  apply not_elem_of_cons in Hv as [Hne Hv].
  rewrite IH by exact Hv. apply list_lookup_insert_ne. congruence.
Qed.

Lemma place_lookup perm : forall sIps rSIps (i v : nat) x,
  NoDup perm -> perm !! i = Some v -> sIps !! i = Some x ->
  (v < length rSIps)%nat ->
  place perm sIps rSIps !! v = Some x.
Proof.
  induction perm as [|w perm IH]; intros [|y sIps] rSIps i v x Hnd Hp Hs Hv;
    try (destruct i; discriminate).
  apply NoDup_cons in Hnd as [Hw Hnd]. destruct i as [|i]; simpl in *.
  - injection Hp as ->. injection Hs as ->.
    rewrite place_untouched by exact Hw. apply list_lookup_insert_eq. exact Hv.
  - apply (IH sIps _ i); try assumption. rewrite length_insert. exact Hv.
Qed.

Lemma place_in_order xs : forall (k : nat) pre ys,
  length pre = k -> length ys = length xs ->
  place (seq k (length xs)) xs (pre ++ ys) = (pre ++ xs)%list.
Proof.
  induction xs as [|x xs IH]; intros k pre ys Hk Hys.
  - destruct ys; [reflexivity|discriminate].
  - destruct ys as [|y ys]; [discriminate|]. simpl.
    replace k with (length pre + 0)%nat by lia. rewrite insert_app_r. simpl.
    replace (S (length pre + 0)) with (length (pre ++ [x])%list)
      by (rewrite length_app; simpl; lia).
    change (pre ++ x :: ys)%list with (pre ++ [x] ++ ys)%list.
    rewrite app_assoc. rewrite IH; [|reflexivity|simpl in Hys; lia].
    rewrite <- app_assoc. reflexivity.
Qed.

(** A specification with [k] separators gives [k + 1] address strings
    to parse, whatever [rand.Perm] draws. *)
Theorem local_ip_strings_count rt perm sIps drawn :
  local_ip_strings rt perm = inr (sIps, drawn) ->
  Z.of_nat (length sIps)
  = strings.Count (LocalIp rt) "&" + strings.Count (LocalIp rt) "|" + 1.
Proof.
  unfold local_ip_strings, split_and_place.
  pose proof (Count_nonneg (LocalIp rt) "&") as Ha.
  pose proof (Count_nonneg (LocalIp rt) "|") as Hb.
  destruct (strings.Count (LocalIp rt) "&" =? 0) eqn:Ea;
    destruct (strings.Count (LocalIp rt) "|" =? 0) eqn:Eb; simpl;
    try apply Z.eqb_eq in Ea; try apply Z.eqb_eq in Eb; try discriminate;
    intros [= <- <-].
  - simpl. lia.
  - rewrite place_length, length_replicate, Split_length. lia.
  - rewrite place_length, length_replicate, Split_length. lia.
Qed.

Lemma local_ip_strings_count_witness :
  local_ip_strings Sample.failover_route (Perm Sample.net 0)
  = inr (["10.0.0.2"; "10.0.0.1"], true)
  /\ Z.of_nat (length ["10.0.0.2"; "10.0.0.1"])
     = strings.Count (LocalIp Sample.failover_route) "&"
       + strings.Count (LocalIp Sample.failover_route) "|" + 1.
Proof.
  assert (H : local_ip_strings Sample.failover_route (Perm Sample.net 0)
              = inr (["10.0.0.2"; "10.0.0.1"], true)) by reflexivity.
  split; [exact H|].
  exact (local_ip_strings_count Sample.failover_route _ _ _ H).
Defined.

(** X12.  When [rand.Perm] draws a permutation of the indices, as it does, the
    reordered list is a permutation of the split list: no address is lost
    and none is made up. *)
Theorem split_and_place_permutes spec sep perm :
  perm (length (strings.Split spec sep)) ≡ₚ seq 0 (length (strings.Split spec sep)) ->
  split_and_place spec sep perm ≡ₚ strings.Split spec sep.
Proof.
  unfold split_and_place.
  set (sIps := strings.Split spec sep). set (n := length sIps).
  set (p := perm n). intros Hp. symmetry.
  assert (Hnd : NoDup p) by (rewrite Hp; apply NoDup_seq).
  assert (Hlen : length p = n) by (rewrite Hp; apply length_seq).
  assert (Hlt : forall i v, p !! i = Some v -> (v < n)%nat).
  { intros i v Hi. apply list_elem_of_lookup_2 in Hi. rewrite Hp in Hi.
    apply elem_of_seq in Hi. lia. }
  apply Permutation_inj. split.
  { rewrite place_length, length_replicate. reflexivity. }
  exists (fun i => match p !! i with Some v => v | None => i end). split.
  - intros i j Hij.
    destruct (p !! i) as [v|] eqn:Ei; destruct (p !! j) as [w|] eqn:Ej.
    + subst w. exact (NoDup_lookup _ _ _ _ Hnd Ei Ej).
    + apply Hlt in Ei. apply lookup_ge_None in Ej. lia.
    + apply Hlt in Ej. apply lookup_ge_None in Ei. lia.
    + exact Hij.
  - intros i. destruct (p !! i) as [v|] eqn:Ei.
    + destruct (sIps !! i) as [x|] eqn:Es.
      * symmetry. apply (place_lookup p sIps _ i v x Hnd Ei Es).
        rewrite length_replicate. exact (Hlt i v Ei).
      * apply lookup_ge_None in Es. apply lookup_lt_Some in Ei. fold n in Es. lia.
    + apply lookup_ge_None in Ei. rewrite Hlen in Ei.
      rewrite (proj2 (lookup_ge_None sIps i)) by exact Ei.
      symmetry. apply lookup_ge_None. rewrite place_length, length_replicate. exact Ei.
Qed.

Lemma split_and_place_permutes_witness :
  Perm Sample.net 0 (length (strings.Split "10.0.0.1|10.0.0.2" "|"))
    ≡ₚ seq 0 (length (strings.Split "10.0.0.1|10.0.0.2" "|"))
  /\ split_and_place "10.0.0.1|10.0.0.2" "|" (Perm Sample.net 0)
       ≡ₚ strings.Split "10.0.0.1|10.0.0.2" "|".
Proof.
  assert (H : Perm Sample.net 0 (length (strings.Split "10.0.0.1|10.0.0.2" "|"))
                ≡ₚ seq 0 (length (strings.Split "10.0.0.1|10.0.0.2" "|")))
    by (apply perm_swap).
  split; [exact H|].
  exact (split_and_place_permutes "10.0.0.1|10.0.0.2" "|" (Perm Sample.net 0) H).
Defined.

(** X13.  The split list keeps its order under the identity draw: when
    [rand.Perm] returns [0, 1, ..., n-1] the addresses are tried in the
    order of the specification. *)
Theorem identity_draw_keeps_order spec sep perm :
  perm (length (strings.Split spec sep)) = seq 0 (length (strings.Split spec sep)) ->
  split_and_place spec sep perm = strings.Split spec sep.
Proof.
  intros Hp. unfold split_and_place. rewrite Hp.
  exact (place_in_order (strings.Split spec sep) 0 []
           (replicate (length (strings.Split spec sep)) "")
           eq_refl (length_replicate _ _)).
Qed.

Lemma identity_draw_keeps_order_witness :
  Perm Sample.dual 0 (length (strings.Split "2001:db8::1&10.0.0.1" "&"))
    = seq 0 (length (strings.Split "2001:db8::1&10.0.0.1" "&"))
  /\ split_and_place "2001:db8::1&10.0.0.1" "&" (Perm Sample.dual 0)
     = strings.Split "2001:db8::1&10.0.0.1" "&".
Proof.
  assert (H : Perm Sample.dual 0 (length (strings.Split "2001:db8::1&10.0.0.1" "&"))
              = seq 0 (length (strings.Split "2001:db8::1&10.0.0.1" "&")))
    by reflexivity.
  split; [exact H|].
  exact (identity_draw_keeps_order "2001:db8::1&10.0.0.1" "&" (Perm Sample.dual 0) H).
Defined.

(** ** Errors of a route *)

Lemma parse_local_all W spec sIps ips :
  parse_local W spec sIps = inr ips <->
  Forall2 (fun ipStr ip => ParseIP W ipStr = Some ip) sIps ips.
Proof.
  revert ips. induction sIps as [|ipStr rest IH]; intros ips; simpl.
  - split; [intros [= <-]; constructor|]. intros H. inversion H. reflexivity.
  - destruct (ParseIP W ipStr) as [ip|] eqn:E.
    + destruct (parse_local W spec rest) as [e|ips'].
      * split; [discriminate|]. intros H. inversion H as [|? ? ? tl _ Htl]; subst.
        apply IH in Htl. discriminate.
      * split.
        -- intros [= <-]. constructor; [exact E|]. apply IH. reflexivity.
        -- intros H. inversion H as [|? ip' ? tl Hip Htl]; subst.
           apply IH in Htl. injection Htl as <-. congruence.
    + split; [discriminate|]. intros H. inversion H; subst. congruence.
Qed.

Lemma parse_local_first_invalid W spec pre ipStr post :
  Forall (fun s => ParseIP W s <> None) pre ->
  ParseIP W ipStr = None ->
  parse_local W spec (pre ++ ipStr :: post) = inl (invalid_ip ipStr spec).
Proof.
  intros Hpre Hbad. induction Hpre as [|s pre Hs _ IH]; simpl.
  - rewrite Hbad. reflexivity.
  - destruct (ParseIP W s); [|contradiction]. rewrite IH. reflexivity.
Qed.

(** X14.  A route whose specification holds both separators ends the call with
    the configuration error that names the route, before any draw and any
    dial; the routes after it are not looked at. *)
Theorem mixed_separators_are_refused W rt rest :
  strings.Count (LocalIp rt) "&" <> 0 ->
  strings.Count (LocalIp rt) "|" <> 0 ->
  newSMTPClient W (rt :: rest) = ((None, Some (mixed_error rt)), run0)
  /\ Error (mixed_error rt)
     = "failover and round-robin are mixed in route " +:+ itoa (Id rt) +:+ " for local IP".
Proof.
  intros Ha Hb. apply Z.eqb_neq in Ha, Hb.
  unfold newSMTPClient. simpl. unfold try_route, local_ip_strings.
  rewrite Ha, Hb. split; reflexivity.
Qed.

Lemma mixed_separators_are_refused_witness :
  strings.Count (LocalIp Sample.mixed_route) "&" <> 0
  /\ strings.Count (LocalIp Sample.mixed_route) "|" <> 0
  /\ newSMTPClient Sample.net [Sample.mixed_route; Sample.route2]
     = ((None, Some (mixed_error Sample.mixed_route)), run0)
  /\ Error (mixed_error Sample.mixed_route)
     = "failover and round-robin are mixed in route 5 for local IP".
Proof.
  assert (Ha : strings.Count (LocalIp Sample.mixed_route) "&" <> 0) by discriminate.
  assert (Hb : strings.Count (LocalIp Sample.mixed_route) "|" <> 0) by discriminate.
  split; [exact Ha|]. split; [exact Hb|].
  exact (mixed_separators_are_refused Sample.net Sample.mixed_route [Sample.route2] Ha Hb).
Defined.

(** X15.  When one of the local address strings of a route does not parse, the
    call ends with the error that names the first such string and the whole
    specification, without any dial; the routes after it are not looked
    at. *)
Theorem invalid_local_ip_is_refused W rt rest pre ipStr post drawn :
  local_ip_strings rt (Perm W 0) = inr ((pre ++ ipStr :: post)%list, drawn) ->
  Forall (fun s => ParseIP W s <> None) pre ->
  ParseIP W ipStr = None ->
  fst (newSMTPClient W (rt :: rest)) = (None, Some (invalid_ip ipStr (LocalIp rt)))
  /\ attempts (snd (newSMTPClient W (rt :: rest))) = [].
Proof.
  intros Hl Hpre Hbad. unfold newSMTPClient. simpl. unfold try_route. simpl.
  rewrite Hl, (parse_local_first_invalid W _ _ _ _ Hpre Hbad).
  destruct drawn; split; reflexivity.
Qed.

Lemma invalid_local_ip_is_refused_witness :
  local_ip_strings Sample.misspelt_route (Perm Sample.dual 0)
    = inr ((["10.0.0.1"] ++ "10.0.0.x" :: [])%list, true)
  /\ Forall (fun s => ParseIP Sample.dual s <> None) ["10.0.0.1"]
  /\ ParseIP Sample.dual "10.0.0.x" = None
  /\ fst (newSMTPClient Sample.dual [Sample.misspelt_route; Sample.route2])
     = (None, Some (invalid_ip "10.0.0.x" "10.0.0.1&10.0.0.x"))
  /\ attempts (snd (newSMTPClient Sample.dual [Sample.misspelt_route; Sample.route2])) = [].
Proof.
  assert (Hl : local_ip_strings Sample.misspelt_route (Perm Sample.dual 0)
               = inr ((["10.0.0.1"] ++ "10.0.0.x" :: [])%list, true)) by reflexivity.
  assert (Hpre : Forall (fun s => ParseIP Sample.dual s <> None) ["10.0.0.1"])
    by (repeat constructor; discriminate).
  assert (Hbad : ParseIP Sample.dual "10.0.0.x" = None) by reflexivity.
  split; [exact Hl|]. split; [exact Hpre|]. split; [exact Hbad|].
  exact (invalid_local_ip_is_refused Sample.dual Sample.misspelt_route [Sample.route2]
           ["10.0.0.1"] "10.0.0.x" [] true Hl Hpre Hbad).
Defined.

(** X16.  When the remote host is not a literal address and its lookup fails,
    the call ends with the error of the lookup, without any dial; the
    routes after it are not looked at. *)
Theorem lookup_failure_is_returned W rt rest sIps drawn e :
  local_ip_strings rt (Perm W 0) = inr (sIps, drawn) ->
  Forall (fun s => ParseIP W s <> None) sIps ->
  ParseIP W (RemoteHost rt) = None ->
  LookupIP W (RemoteHost rt) = inl e ->
  fst (newSMTPClient W (rt :: rest)) = (None, Some e)
  /\ attempts (snd (newSMTPClient W (rt :: rest))) = [].
Proof.
  intros Hl Hall Hlit Hlook. unfold newSMTPClient. simpl. unfold try_route. simpl.
  rewrite Hl.
  assert (Hparse : exists ips, parse_local W (LocalIp rt) sIps = inr ips).
  { clear Hl. induction Hall as [|s l Hs _ [ips IH]]; simpl; [eauto|].
    destruct (ParseIP W s); [|contradiction]. rewrite IH. eauto. }
  destruct Hparse as [ips ->]. unfold remote_addresses. rewrite Hlit, Hlook.
  destruct drawn; split; reflexivity.
Qed.

Lemma lookup_failure_is_returned_witness :
  let e := io_error "lookup mx.example.test: no such host" in
  local_ip_strings Sample.named_route (Perm Sample.net 0) = inr (["10.0.0.1"], false)
  /\ Forall (fun s => ParseIP Sample.net s <> None) ["10.0.0.1"]
  /\ ParseIP Sample.net (RemoteHost Sample.named_route) = None
  /\ LookupIP Sample.net (RemoteHost Sample.named_route) = inl e
  /\ fst (newSMTPClient Sample.net [Sample.named_route; Sample.route2]) = (None, Some e)
  /\ attempts (snd (newSMTPClient Sample.net [Sample.named_route; Sample.route2])) = [].
Proof.
  intros e.
  assert (Hl : local_ip_strings Sample.named_route (Perm Sample.net 0)
               = inr (["10.0.0.1"], false)) by reflexivity.
  assert (Hall : Forall (fun s => ParseIP Sample.net s <> None) ["10.0.0.1"])
    by (repeat constructor; discriminate).
  assert (Hlit : ParseIP Sample.net (RemoteHost Sample.named_route) = None) by reflexivity.
  assert (Hlook : LookupIP Sample.net (RemoteHost Sample.named_route) = inl e)
    by reflexivity.
  split; [exact Hl|]. split; [exact Hall|]. split; [exact Hlit|]. split; [exact Hlook|].
  exact (lookup_failure_is_returned Sample.net Sample.named_route [Sample.route2]
           ["10.0.0.1"] false e Hl Hall Hlit Hlook).
Defined.

(** ** More on the extensions *)



Lemma Split_free s sep : free_of sep s -> strings.Split s sep = [s].
Proof.
  unfold free_of. induction s as [|a s IH]; [reflexivity|]. simpl.
  pose proof (Count_nonneg s sep). destruct (Ascii.eqb a sep); [lia|].
  intros Hc. rewrite IH by lia. reflexivity.
Qed.

Lemma Split_nonempty s sep : strings.Split s sep <> [].
Proof.
  destruct s as [|a s]; simpl; [discriminate|].
  destruct (Ascii.eqb a sep); [discriminate|].
  destruct (strings.Split s sep); discriminate.
Qed.

Lemma Split_append a b sep :
  strings.Split (a +:+ String sep b) sep
  = (strings.Split a sep ++ strings.Split b sep)%list.
Proof.
  induction a as [|x a IH]; simpl.
  - rewrite Ascii.eqb_refl. reflexivity.
  - rewrite IH. destruct (Ascii.eqb x sep); [reflexivity|].
    pose proof (Split_nonempty a sep).
    destruct (strings.Split a sep); [contradiction|reflexivity].
Qed.

Lemma SplitN2_free k sep : free_of sep k -> strings.SplitN2 k sep = (k, None).
Proof.
  unfold free_of. induction k as [|a k IH]; [reflexivity|]. simpl.
  pose proof (Count_nonneg k sep). destruct (Ascii.eqb a sep); [lia|].
  intros Hc. rewrite IH by lia. reflexivity.
Qed.


Lemma SplitN2_parts line sep c :
  free_of sep (fst (strings.SplitN2 line sep))
  /\ strings.Count (fst (strings.SplitN2 line sep)) c <= strings.Count line c
  /\ forall v, snd (strings.SplitN2 line sep) = Some v ->
               strings.Count v c <= strings.Count line c.
Proof.
  unfold free_of. induction line as [|a line (IH1 & IH2 & IH3)]; simpl.
  - repeat split; [lia|discriminate].
  - pose proof (Count_nonneg line c). destruct (Ascii.eqb a sep) eqn:E; simpl.
    + repeat split; [destruct (Ascii.eqb a c); lia|].
      intros v [= <-]. destruct (Ascii.eqb a c); lia.
    + destruct (strings.SplitN2 line sep) as [h t]. simpl in *. rewrite E.
      repeat split; [lia|lia|]. intros v Hv. specialize (IH3 v Hv).
      destruct (Ascii.eqb a c); lia.
Qed.

Lemma Split_pieces s sep :
  Forall (free_of sep) (strings.Split s sep).
Proof.
  unfold free_of. induction s as [|a s IH]; simpl; [repeat constructor|].
  destruct (Ascii.eqb a sep) eqn:E; [constructor; [reflexivity|exact IH]|].
  destruct (strings.Split s sep) as [|h t]; [repeat constructor; simpl; rewrite E; reflexivity|].
  inversion IH as [|? ? Hh Ht]; subst. constructor; [|exact Ht].
  simpl. rewrite E, Hh. reflexivity.
Qed.

Section Keywords.

Variable GetMe : string.

(** A line stores its keyword, and nothing else. *)
Lemma ehlo_line_lookup m line k :
  ehlo_line m line !! k
  = if decide (fst (strings.SplitN2 line SP) = k)
    then Some (default "" (snd (strings.SplitN2 line SP)))
    else m !! k.
Proof.
  unfold ehlo_line. destruct (strings.SplitN2 line SP) as [k' [v|]]; simpl;
    rewrite lookup_insert; destruct (decide (k' = k)); reflexivity.
Qed.

(** X17.  The first line of the reply to EHLO is the greeting and is never
    taken for an extension: a reply of one line gives the empty mapping,
    and the mapping of a longer reply is made of the lines after the first
    alone. *)
Theorem banner_is_discarded banner :
  free_of LF banner ->
  ehlo_ext banner = ∅
  /\ forall rest,
       ehlo_ext (banner +:+ String LF rest) = foldl ehlo_line ∅ (strings.Split rest LF).
Proof.
  intros Hb. unfold ehlo_ext. split.
  - rewrite (Split_free _ _ Hb). reflexivity.
  - intros rest. rewrite Split_append, (Split_free _ _ Hb). simpl.
    pose proof (Split_nonempty rest LF).
    destruct (strings.Split rest LF) as [|l ls]; [contradiction|].
    destruct (1 <? _) eqn:E; [reflexivity|].
    apply Z.ltb_ge in E. cbn [length] in E. lia.
Qed.

Lemma banner_is_discarded_witness :
  free_of LF "AUTH PLAIN"
  /\ ehlo_ext "AUTH PLAIN" = ∅
  /\ forall rest,
       ehlo_ext ("AUTH PLAIN" +:+ String LF rest)
       = foldl ehlo_line ∅ (strings.Split rest LF).
Proof.
  assert (Hb : free_of LF "AUTH PLAIN") by reflexivity.
  split; [exact Hb|]. exact (banner_is_discarded "AUTH PLAIN" Hb).
Defined.


Lemma Ehlo_heard s msg :
  hears s 10 ("EHLO " +:+ GetMe) 250 msg ->
  ext (fst (Ehlo GetMe s)) = Some (ehlo_ext msg)
  /\ auth (fst (Ehlo GetMe s))
     = match ehlo_ext msg !! "AUTH" with
       | Some mechs => strings.Split mechs SP
       | None => auth s
       end
  /\ snd (Ehlo GetMe s) = (250, msg, None).
Proof.
  intros Hh. unfold Ehlo. rewrite (cmd_hears _ _ 250 _ _ _ Hh). cbn [ReadResponse].
  replace (code_mismatch 250 250) with false by reflexivity. cbv zeta.
  destruct (ehlo_ext msg !! "AUTH"); repeat split.
Qed.


(** X19.  A successful EHLO replaces the extension mapping by the one of its
    reply, whatever the mapping was before; it replaces the list of
    mechanisms only when the reply advertises AUTH, and otherwise leaves the
    list of an earlier EHLO in place. *)
Theorem Ehlo_replaces_extensions s msg old :
  hears s 10 ("EHLO " +:+ GetMe) 250 msg ->
  ext (fst (Ehlo GetMe (set_ext s old))) = Some (ehlo_ext msg)
  /\ (forall mechs, ehlo_ext msg !! "AUTH" = Some mechs ->
       auth (fst (Ehlo GetMe s)) = strings.Split mechs SP)
  /\ (ehlo_ext msg !! "AUTH" = None -> auth (fst (Ehlo GetMe s)) = auth s).
Proof.
  intros Hh. assert (Hh' : hears (set_ext s old) 10 ("EHLO " +:+ GetMe) 250 msg) by exact Hh.
  destruct (Ehlo_heard _ _ Hh') as (Hext & _ & _).
  destruct (Ehlo_heard _ _ Hh) as (_ & Hauth & _).
  split; [exact Hext|]. split.
  - intros mechs Hm. rewrite Hauth, Hm. reflexivity.
  - intros Hm. rewrite Hauth, Hm. reflexivity.
Qed.


(** X20.  An EHLO that fails leaves the extension mapping, the list of
    mechanisms and the TLS flag as they were. *)
Theorem Ehlo_failure_changes_nothing s e :
  err_of (snd (Ehlo GetMe s)) = Some e ->
  ext (fst (Ehlo GetMe s)) = ext s
  /\ auth (fst (Ehlo GetMe s)) = auth s
  /\ tls (fst (Ehlo GetMe s)) = tls s.
Proof.
  unfold Ehlo.
  pose proof (cmd_frame s 10 250 ("EHLO " +:+ GetMe)) as (_ & _ & He & Ha & Ht & _).
  destruct (cmd s 10 250 _) as [s1 [[code msg] [e'|]]]; simpl in *; [|discriminate].
  intros _. auto.
Qed.

(** X21.  No keyword of the mapping holds a space or a line feed, and no
    argument holds a line feed. *)
Theorem ehlo_ext_keywords msg k v :
  ehlo_ext msg !! k = Some v ->
  free_of SP k /\ free_of LF k /\ free_of LF v.
Proof.
  unfold ehlo_ext.
  assert (Hfold : forall lines (m : gmap string string),
             Forall (free_of LF) lines ->
             (forall k v, m !! k = Some v -> free_of SP k /\ free_of LF k /\ free_of LF v) ->
             forall k v, foldl ehlo_line m lines !! k = Some v ->
                         free_of SP k /\ free_of LF k /\ free_of LF v).
  { induction lines as [|line lines IH]; intros m Hl Hm; [exact Hm|]. simpl.
    inversion Hl as [|? ? Hline Hrest]; subst. apply IH; [exact Hrest|].
    intros k' v'. rewrite ehlo_line_lookup.
    destruct (decide _) as [<-|]; [|apply Hm].
    destruct (SplitN2_parts line SP LF) as (H1 & H2 & H3).
    pose proof (Count_nonneg (fst (strings.SplitN2 line SP)) LF).
    unfold free_of in *. intros [= <-]. split; [exact H1|]. split; [lia|].
    destruct (snd (strings.SplitN2 line SP)) as [a|]; [|reflexivity]. simpl.
    specialize (H3 a eq_refl). pose proof (Count_nonneg a LF). lia. }
  pose proof (Split_pieces msg LF) as Hp.
  destruct (1 <? _); [|rewrite lookup_empty; discriminate].
  apply Hfold.
  - destruct (strings.Split msg LF); [constructor|]. inversion Hp. assumption.
  - intros k' v'. rewrite lookup_empty. discriminate.
Qed.

End Keywords.


Lemma Ehlo_replaces_extensions_witness :
  let s := set_auth (Sample.session (Sample.by_verb Sample.esmtp)) ["CRAM-MD5"] in
  let msg := "greet" +:+ String LF "AUTH PLAIN LOGIN" +:+ String LF "SIZE 100" in
  let old := Some ({["STARTTLS" := ""]} : gmap string string) in
  hears s 10 ("EHLO " +:+ Sample.me) 250 msg
  /\ ext (fst (Ehlo Sample.me (set_ext s old))) = Some (ehlo_ext msg)
  /\ (forall mechs, ehlo_ext msg !! "AUTH" = Some mechs ->
      auth (fst (Ehlo Sample.me s)) = strings.Split mechs SP)
  /\ (ehlo_ext msg !! "AUTH" = None -> auth (fst (Ehlo Sample.me s)) = auth s).
Proof.
  intros s msg old.
  assert (Hh : hears s 10 ("EHLO " +:+ Sample.me) 250 msg) by (repeat split; reflexivity).
  split; [exact Hh|]. exact (Ehlo_replaces_extensions Sample.me s msg old Hh).
Defined.

Lemma Ehlo_failure_changes_nothing_witness :
  let s := set_auth (Sample.session (Sample.by_verb Sample.helo_only)) ["PLAIN"] in
  let e := textproto_Error 502 "command not implemented" in
  err_of (snd (Ehlo Sample.me s)) = Some e
  /\ ext (fst (Ehlo Sample.me s)) = ext s
  /\ auth (fst (Ehlo Sample.me s)) = auth s
  /\ tls (fst (Ehlo Sample.me s)) = tls s.
Proof.
  intros s e.
  assert (He : err_of (snd (Ehlo Sample.me s)) = Some e) by reflexivity.
  split; [exact He|]. exact (Ehlo_failure_changes_nothing Sample.me s e He).
Defined.

Lemma ehlo_ext_keywords_witness :
  let msg := "greet" +:+ String LF "AUTH PLAIN LOGIN" +:+ String LF "SIZE 100" in
  ehlo_ext msg !! "AUTH" = Some "PLAIN LOGIN"
  /\ free_of SP "AUTH" /\ free_of LF "AUTH" /\ free_of LF "PLAIN LOGIN".
Proof.
  intros msg.
  assert (H : ehlo_ext msg !! "AUTH" = Some "PLAIN LOGIN") by (vm_compute; reflexivity).
  split; [exact H|]. exact (ehlo_ext_keywords msg "AUTH" "PLAIN LOGIN" H).
Defined.

(** ** Sequences of commands *)

Section Sequences.

Variable GetMe : string.

Lemma Ehlo_frame s :
  let s' := fst (Ehlo GetMe s) in
  route s' = route s /\ connTLS s' = connTLS s /\ tls s' = tls s
  /\ closed (text s') = closed (text s) /\ secured (text s') = secured (text s).
Proof.
  unfold Ehlo.
  pose proof (cmd_frame s 10 250 ("EHLO " +:+ GetMe))
    as (Hr & Hc & _ & _ & Ht & Hcl & Hs & _).
  destruct (cmd s 10 250 _) as [s1 [[code msg] [e|]]]; simpl in *; [repeat split; assumption|].
  destruct (ehlo_ext msg !! "AUTH"); simpl; repeat split; assumption.
Qed.



(** When the EHLO succeeds, [Hello] is that EHLO and nothing more. *)
Theorem Hello_is_Ehlo_when_it_succeeds s :
  err_of (snd (Ehlo GetMe s)) = None ->
  Hello GetMe s = Ehlo GetMe s.
Proof.
  intros He. unfold Hello. destruct (Ehlo GetMe s) as [s1 r]. simpl in He.
  rewrite He. reflexivity.
Qed.

(** X23.  Once the STARTTLS command is accepted, the session is left on the
    wrapped connection, with the configuration given, whether the EHLO that
    follows succeeds or not; nothing goes back to the plain connection. *)
Theorem StartTLS_does_not_go_back s config msg :
  hears (set_tls s false) 30 "STARTTLS" 220 msg ->
  secured (text (fst (StartTLS GetMe s config))) = Some config
  /\ connTLS (fst (StartTLS GetMe s config)) = Some config.
Proof.
  intros Hh. unfold StartTLS.
  rewrite (cmd_hears _ _ 220 _ _ _ Hh). cbn [ReadResponse].
  replace (code_mismatch 220 220) with false by reflexivity. cbn [err_of snd].
  match goal with |- context [Ehlo GetMe ?x] =>
    pose proof (Ehlo_frame x) as (_ & Hc & _ & _ & Hs); destruct (Ehlo GetMe x) as [s3 r3]
  end.
  simpl in Hc, Hs. destruct (err_of r3); simpl; auto.
Qed.

(** When the STARTTLS command fails, the connection is not wrapped and
    the extension mapping and the list of mechanisms stay; the TLS flag is
    cleared all the same, also on a session that was on TLS. *)
Theorem StartTLS_refused_keeps_the_connection s config e :
  err_of (snd (cmd (set_tls s false) 30 220 "STARTTLS")) = Some e ->
  snd (StartTLS GetMe s config) = snd (cmd (set_tls s false) 30 220 "STARTTLS")
  /\ secured (text (fst (StartTLS GetMe s config))) = secured (text s)
  /\ connTLS (fst (StartTLS GetMe s config)) = connTLS s
  /\ ext (fst (StartTLS GetMe s config)) = ext s
  /\ auth (fst (StartTLS GetMe s config)) = auth s
  /\ tls (fst (StartTLS GetMe s config)) = false.
Proof.
  intros He. unfold StartTLS.
  pose proof (cmd_frame (set_tls s false) 30 220 "STARTTLS")
    as (_ & Hc & Hx & Ha & Ht & _ & Hs & _).
  destruct (cmd (set_tls s false) 30 220 "STARTTLS") as [s1 r1]. simpl in *. rewrite He.
  repeat split; assumption.
Qed.

Lemma StartTLS_consistent s config : tls_consistent (fst (StartTLS GetMe s config)).
Proof.
  unfold StartTLS, tls_consistent.
  pose proof (cmd_frame (set_tls s false) 30 220 "STARTTLS") as (_ & _ & _ & _ & Ht & _).
  destruct (cmd (set_tls s false) 30 220 "STARTTLS") as [s1 r1]. simpl in *.
  destruct (err_of r1); [simpl; congruence|].
  match goal with |- context [Ehlo GetMe ?x] =>
    pose proof (Ehlo_frame x) as (_ & Hc & Ht3 & _ & Hs); destruct (Ehlo GetMe x) as [s3 r3]
  end.
  simpl in *. destruct (err_of r3); simpl.
  - congruence.
  - intros _. rewrite Hc, Hs. split; discriminate.
Qed.

Lemma perform_consistent s c : tls_consistent s -> tls_consistent (perform GetMe s c).
Proof.
  unfold tls_consistent. intros Hs.
  assert (Hcmd : forall s0 t ec line,
             (tls s0 = true -> connTLS s0 <> None /\ secured (text s0) <> None) ->
             tls (fst (cmd s0 t ec line)) = true ->
             connTLS (fst (cmd s0 t ec line)) <> None
             /\ secured (text (fst (cmd s0 t ec line))) <> None).
  { intros s0 t ec line H0.
    pose proof (cmd_frame s0 t ec line) as (_ & Hc & _ & _ & Ht & _ & Hsec & _).
    simpl in *. rewrite Hc, Ht, Hsec. exact H0. }
  assert (Hehlo : forall s0,
             (tls s0 = true -> connTLS s0 <> None /\ secured (text s0) <> None) ->
             tls (fst (Ehlo GetMe s0)) = true ->
             connTLS (fst (Ehlo GetMe s0)) <> None
             /\ secured (text (fst (Ehlo GetMe s0))) <> None).
  { intros s0 H0. pose proof (Ehlo_frame s0) as (_ & Hc & Ht & _ & Hsec).
    simpl in *. rewrite Hc, Ht, Hsec. exact H0. }
  destruct c; simpl.
  - apply Hcmd, Hs.
  - unfold Hello. pose proof (Hehlo s Hs) as H1.
    destruct (Ehlo GetMe s) as [s1 r]. simpl in H1. destruct (err_of r); [|exact H1].
    unfold Helo. apply Hcmd. exact H1.
  - apply Hehlo, Hs.
  - unfold Helo. apply Hcmd. exact Hs.
  - apply StartTLS_consistent.
  - apply Hcmd, Hs.
  - unfold Rcpt. pose proof (Hcmd s 30 (-1) ("RCPT TO:<" +:+ to +:+ ">") Hs) as H1.
    destruct (cmd s 30 (-1) _) as [s1 [[code msg] err]].
    destruct (negb (code =? 250) && negb (code =? 251)); exact H1.
  - unfold Data. pose proof (Hcmd s 30 354 "DATA" Hs) as H1.
    destruct (cmd s 30 354 "DATA") as [s1 [[code msg] [e|]]]; exact H1.
  - unfold Quit. pose proof (Hcmd s 10 221 "QUIT" Hs) as H1.
    destruct (cmd s 10 221 "QUIT") as [s1 r]. exact H1.
  - exact Hs.
Qed.

(** X24.  On a client that [newSMTPClient] returned, after any sequence of
    calls, the TLS flag is only set when the session holds a TLS connection
    and talks over it: the accessors that go through [s.connTLS] when the
    flag is set find it there. *)
Theorem tls_flag_has_a_connection (W : Net) (routes : list Route) c err cs :
  fst (newSMTPClient W routes) = (Some c, err) ->
  tls_consistent (after_calls GetMe c cs).
Proof.
  intros Hres.
  assert (Hc : tls_consistent c).
  { destruct (newSMTPClient_outcome W routes)
      as [[_ [e He]] | (rt & a & rest & _ & _ & _ & _ & Hset)].
    - rewrite Hres in He. discriminate.
    - rewrite Hres in Hset. unfold settle in Hset.
      destruct (att_outcome a) as [|e|conn]; [discriminate|discriminate|].
      destruct (err_of _); [discriminate|]. injection Hset as <- _.
      unfold tls_consistent. discriminate. }
  clear Hres. unfold after_calls. revert c Hc.
  induction cs as [|call cs IH]; intros c Hc; [exact Hc|].
  simpl. apply IH, perform_consistent, Hc.
Qed.

Lemma perform_closed s c :
  closed (text s) = true ->
  closed (text (perform GetMe s c)) = true
  /\ sent (text (perform GetMe s c)) = sent (text s).
Proof.
  intros Hc.
  assert (Hcmd : forall s0 t ec line, closed (text s0) = true ->
                   cmd s0 t ec line = (s0, (0, "", Some closed_error)))
    by (intros; apply cmd_closed; assumption).
  destruct c; simpl.
  - unfold Noop. rewrite Hcmd by exact Hc. auto.
  - unfold Hello, Ehlo. rewrite Hcmd by exact Hc. simpl.
    unfold Helo. rewrite Hcmd by exact Hc. auto.
  - unfold Ehlo. rewrite Hcmd by exact Hc. auto.
  - unfold Helo. rewrite Hcmd by exact Hc. auto.
  - unfold StartTLS. rewrite Hcmd by exact Hc. auto.
  - unfold Mail. rewrite Hcmd by exact Hc. auto.
  - unfold Rcpt. rewrite Hcmd by exact Hc. auto.
  - unfold Data. rewrite Hcmd by exact Hc. auto.
  - unfold Quit. rewrite Hcmd by exact Hc. auto.
  - auto.
Qed.

(** X25.  After [Quit] the transport stays closed and nothing more is sent,
    whatever is called next. *)
Theorem nothing_is_sent_after_Quit s cs :
  closed (text (after_calls GetMe (fst (Quit s)) cs)) = true
  /\ sent (text (after_calls GetMe (fst (Quit s)) cs)) = sent (text (fst (Quit s))).
Proof.
  assert (Hq : closed (text (fst (Quit s))) = true).
  { unfold Quit. destruct (cmd s 10 221 "QUIT"). reflexivity. }
  generalize dependent (fst (Quit s)). intros q Hq. unfold after_calls.
  revert q Hq. induction cs as [|c cs IH]; intros q Hq; [auto|]. simpl.
  destruct (perform_closed q c Hq) as [Hc Hs].
  destruct (IH _ Hc) as [Hc' Hs']. split; [exact Hc'|]. rewrite Hs', Hs. reflexivity.
Qed.

End Sequences.


Lemma StartTLS_does_not_go_back_witness :
  let s := Sample.session Sample.no_handshake in
  let config := TLSConfig "mx.example.test" in
  hears (set_tls s false) 30 "STARTTLS" 220 "Go ahead"
  /\ secured (text (fst (StartTLS Sample.me s config))) = Some config
  /\ connTLS (fst (StartTLS Sample.me s config)) = Some config.
Proof.
  intros s config.
  assert (Hh : hears (set_tls s false) 30 "STARTTLS" 220 "Go ahead")
    by (repeat split; reflexivity).
  split; [exact Hh|]. exact (StartTLS_does_not_go_back Sample.me s config "Go ahead" Hh).
Defined.

(** The handshake fails in that run: the flag is down and the error is that
    of the EHLO, while the session stays on the wrapped connection. *)
Example StartTLS_half_way :
  let s := Sample.session Sample.no_handshake in
  let s' := fst (StartTLS Sample.me s (TLSConfig "mx.example.test")) in
  tls s' = false
  /\ err_of (snd (StartTLS Sample.me s (TLSConfig "mx.example.test")))
     = Some (io_error "tls: handshake failure")
  /\ secured (text s') = Some (TLSConfig "mx.example.test").
Proof. cbv zeta. repeat split. Qed.

Lemma StartTLS_refused_keeps_the_connection_witness :
  let s := set_tls (Sample.session (Sample.by_verb Sample.helo_only)) true in
  let config := TLSConfig "mx.example.test" in
  let e := textproto_Error 502 "command not implemented" in
  err_of (snd (cmd (set_tls s false) 30 220 "STARTTLS")) = Some e
  /\ snd (StartTLS Sample.me s config) = snd (cmd (set_tls s false) 30 220 "STARTTLS")
  /\ secured (text (fst (StartTLS Sample.me s config))) = secured (text s)
  /\ connTLS (fst (StartTLS Sample.me s config)) = connTLS s
  /\ ext (fst (StartTLS Sample.me s config)) = ext s
  /\ auth (fst (StartTLS Sample.me s config)) = auth s
  /\ tls (fst (StartTLS Sample.me s config)) = false.
Proof.
  intros s config e.
  assert (He : err_of (snd (cmd (set_tls s false) 30 220 "STARTTLS")) = Some e)
    by reflexivity.
  split; [exact He|].
  exact (StartTLS_refused_keeps_the_connection Sample.me s config e He).
Defined.

Lemma tls_flag_has_a_connection_witness :
  let c := new_client Sample.route2 (Sample.fresh (Sample.by_verb Sample.esmtp)) in
  let cs := [CallEhlo; CallStartTLS (TLSConfig "mx.example.test");
             CallMail "sender@tmail.test"] in
  fst (newSMTPClient Sample.net [Sample.route2]) = (Some c, None)
  /\ tls (after_calls Sample.me c cs) = true
  /\ tls_consistent (after_calls Sample.me c cs).
Proof.
  intros c cs.
  assert (Hres : fst (newSMTPClient Sample.net [Sample.route2]) = (Some c, None))
    by reflexivity.
  split; [exact Hres|]. split; [vm_compute; reflexivity|].
  exact (tls_flag_has_a_connection Sample.me Sample.net [Sample.route2] c None cs Hres).
Defined.

(** ** More on AUTH *)

Lemma Quit_frame s :
  let s' := fst (Quit s) in
  route s' = route s /\ connTLS s' = connTLS s /\ ext s' = ext s
  /\ auth s' = auth s /\ tls s' = tls s /\ closed (text s') = true.
Proof.
  unfold Quit.
  pose proof (cmd_frame s 10 221 "QUIT") as (Hr & Hc & Hx & Ha & Ht & _).
  destruct (cmd s 10 221 "QUIT") as [s1 r]. simpl in *. repeat split; assumption.
Qed.


Lemma abort_frame s :
  route (abort s) = route s /\ connTLS (abort s) = connTLS s /\ ext (abort s) = ext s
  /\ auth (abort s) = auth s /\ tls (abort s) = tls s /\ closed (text (abort s)) = true.
Proof.
  unfold abort.
  pose proof (cmd_frame s 10 501 "*") as (Hr & Hc & Hx & Ha & Ht & _).
  pose proof (Quit_frame (fst (cmd s 10 501 "*"))) as (Hr' & Hc' & Hx' & Ha' & Ht' & Hcl).
  simpl in *. repeat split; congruence.
Qed.


Section Exchange.

Variable GetMe : string.
Variable encoding : Encoding.
Context {A : Type} `{DeliverdAuth A}.




(** X29.  A challenge is decoded and handed to [Next] with [more = true]; the
    response of [Next] is sent, in base64, as a line of its own; when the
    server answers it with 235 and [Next], called with the text of that
    reply and [more = false], has nothing to add, [Auth] returns code 235
    without error after exactly these two calls and these two lines. *)
Theorem Auth_answers_a_challenge (fuel : nat) (a a1 a2 a3 : A) (s : smtpClient)
    (mech : string) (resp challenge resp2 : bytes) (msg64 msg : string) :
  Start a {| Name := GetMe; TLS := tls s; Auth_mechs := auth s |}
    = (a1, (mech, resp, None)) ->
  hears s 30 (auth_line encoding mech resp) 334 msg64 ->
  DecodeString encoding msg64 = inr challenge ->
  Next a1 challenge true = (a2, (Some resp2, None)) ->
  hears (fst (cmd s 30 0 (auth_line encoding mech resp))) 30
        (EncodeToString encoding resp2) 235 msg ->
  Next a2 (list_byte_of_string msg) false = (a3, (None, None)) ->
  exists out,
    Auth GetMe encoding (S (S fuel)) a s = Some out
    /\ end_result out = (235, "", None)
    /\ end_auth out = a3
    /\ end_calls out = [{| fromServer := challenge; more := true |};
                        {| fromServer := list_byte_of_string msg; more := false |}]
    /\ closed (text (end_client out)) = false
    /\ sent (text (end_client out))
       = EncodeToString encoding resp2 :: auth_line encoding mech resp :: sent (text s).
Proof.
  intros Hstart Hh Hdec Hnext Hh2 Hnext2. unfold Auth. rewrite Hstart.
  fold (auth_line encoding mech resp).
  assert (Hopen : closed (text s) = false) by (destruct Hh as [Hc _]; exact Hc).
  assert (Hopen2 : closed (text (fst (cmd s 30 0 (auth_line encoding mech resp)))) = false)
    by (destruct Hh2 as [Hc _]; exact Hc).
  pose proof (cmd_sent_open s 30 0 (auth_line encoding mech resp) Hopen) as Hsent.
  pose proof (cmd_sent_open _ 30 0 (EncodeToString encoding resp2) Hopen2) as Hsent2.
  pose proof (cmd_frame (fst (cmd s 30 0 (auth_line encoding mech resp))) 30 0
                (EncodeToString encoding resp2)) as (_ & _ & _ & _ & _ & Hcl2 & _).
  pose proof (cmd_hears _ _ 0 _ _ _ Hh2) as Hcmd2.
  destruct (cmd s 30 0 (auth_line encoding mech resp)) as [s1 r1] eqn:Ecmd.
  pose proof (cmd_hears _ _ 0 _ _ _ Hh) as Hcmd1. rewrite Ecmd in Hcmd1.
  injection Hcmd1 as Hs1 Hr1. cbn [ReadResponse] in Hr1.
  replace (code_mismatch 0 334) with false in Hr1 by reflexivity. subst r1.
  cbn [fst] in *. cbn [auth_loop]. unfold dispatch at 1. simpl (334 =? 334). cbv iota.
  rewrite Hdec, Hnext.
  destruct (cmd s1 30 0 (EncodeToString encoding resp2)) as [s2 r2] eqn:Ecmd2.
  injection Hcmd2 as Hs2 Hr2. cbn [ReadResponse] in Hr2.
  replace (code_mismatch 0 235) with false in Hr2 by reflexivity. subst r2.
  cbn [auth_loop]. rewrite dispatch_235.
  replace (235 =? 334) with false by reflexivity. rewrite Hnext2.
  eexists. split; [reflexivity|]. cbn [fst] in *. simpl.
  repeat split.
  - rewrite Hcl2. exact Hopen2.
  - rewrite Hsent2, Hsent. reflexivity.
Qed.

Lemma auth_loop_result fuel : forall a s r calls out,
  auth_loop encoding fuel a s r calls = Some out ->
  msg_of (end_result out) = ""
  /\ route (end_client out) = route s /\ connTLS (end_client out) = connTLS s
  /\ ext (end_client out) = ext s /\ auth (end_client out) = auth s
  /\ tls (end_client out) = tls s.
Proof.
  induction fuel as [|fuel IH]; intros a s [[code msg64] err] calls out; simpl.
  - destruct err; [|discriminate]. intros [= <-]. repeat split.
  - destruct err as [e|]; [intros [= <-]; repeat split|].
    pose proof (abort_frame s) as (Hr & Hc & Hx & Ha & Ht & _).
    destruct (dispatch encoding code msg64) as [e|msg].
    { intros [= <-]. simpl. repeat split; assumption. }
    destruct (Next a msg (code =? 334)) as [a' [resp err']].
    destruct err' as [e|]; [intros [= <-]; simpl; repeat split; assumption|].
    destruct resp as [resp'|]; [|intros [= <-]; repeat split].
    pose proof (cmd_frame s 30 0 (EncodeToString encoding resp'))
      as (Hr' & Hc' & Hx' & Ha' & Ht' & _).
    destruct (cmd s 30 0 _) as [s' r']. simpl in *. intros Hl.
    destruct (IH _ _ _ _ _ Hl) as (Hm & H1 & H2 & H3 & H4 & H5).
    repeat split; congruence.
Qed.

(** X30.  Whatever the exchange, [Auth] returns the empty string as message
    (the text of the server's replies is not returned), and it leaves the
    route, the extension mapping, the list of mechanisms and the TLS state
    of the session as they were: it acts on the transport only. *)
Theorem Auth_returns_no_message (fuel : nat) (a : A) (s : smtpClient) (out : auth_end A) :
  Auth GetMe encoding fuel a s = Some out ->
  msg_of (end_result out) = ""
  /\ route (end_client out) = route s /\ connTLS (end_client out) = connTLS s
  /\ ext (end_client out) = ext s /\ auth (end_client out) = auth s
  /\ tls (end_client out) = tls s.
Proof.
  unfold Auth.
  destruct (Start a _) as [a1 [[mech resp] [e|]]].
  - intros [= <-]. simpl.
    pose proof (Quit_frame s) as (Hr & Hc & Hx & Ha & Ht & _). repeat split; assumption.
  - pose proof (cmd_frame s 30 0 ("AUTH " +:+ mech +:+ " " +:+ EncodeToString encoding resp))
      as (Hr & Hc & Hx & Ha & Ht & _).
    destruct (cmd s 30 0 _) as [s1 r1]. simpl in *. intros Hl.
    destruct (auth_loop_result _ _ _ _ _ _ Hl) as (Hm & H1 & H2 & H3 & H4 & H5).
    repeat split; congruence.
Qed.

End Exchange.




Lemma Auth_answers_a_challenge_witness :
  let s := Sample.session Sample.challenger in
  let msg64 := "PDEyMzQ1QG14LmV4YW1wbGUudGVzdD4=" in
  let challenge := list_byte_of_string "<12345@mx.example.test>" in
  let resp2 := list_byte_of_string "user 0123456789abcdef" in
  let msg := "Authentication successful" in
  Start false {| Name := Sample.me; TLS := tls s; Auth_mechs := auth s |}
    = (false, ("CRAM-MD5", [], None))
  /\ hears s 30 (auth_line base64.StdEncoding "CRAM-MD5" []) 334 msg64
  /\ DecodeString base64.StdEncoding msg64 = inr challenge
  /\ Next false challenge true = (true, (Some resp2, None))
  /\ hears (fst (cmd s 30 0 (auth_line base64.StdEncoding "CRAM-MD5" []))) 30
           (EncodeToString base64.StdEncoding resp2) 235 msg
  /\ Next true (list_byte_of_string msg) false = (true, (None, None))
  /\ exists out,
       Auth Sample.me base64.StdEncoding 2 false s = Some out
       /\ end_result out = (235, "", None)
       /\ end_auth out = true
       /\ end_calls out = [{| fromServer := challenge; more := true |};
                           {| fromServer := list_byte_of_string msg; more := false |}]
       /\ closed (text (end_client out)) = false
       /\ sent (text (end_client out))
          = EncodeToString base64.StdEncoding resp2
            :: auth_line base64.StdEncoding "CRAM-MD5" [] :: sent (text s).
Proof.
  intros s msg64 challenge resp2 msg.
  assert (Hstart : Start false {| Name := Sample.me; TLS := tls s; Auth_mechs := auth s |}
                   = (false, ("CRAM-MD5", [], None))) by reflexivity.
  assert (Hh : hears s 30 (auth_line base64.StdEncoding "CRAM-MD5" []) 334 msg64)
    by (repeat split; reflexivity).
  assert (Hdec : DecodeString base64.StdEncoding msg64 = inr challenge)
    by (vm_compute; reflexivity).
  assert (Hnext : Next false challenge true = (true, (Some resp2, None))) by reflexivity.
  assert (Hh2 : hears (fst (cmd s 30 0 (auth_line base64.StdEncoding "CRAM-MD5" []))) 30
                  (EncodeToString base64.StdEncoding resp2) 235 msg)
    by (repeat split; reflexivity).
  assert (Hnext2 : Next true (list_byte_of_string msg) false = (true, (None, None)))
    by reflexivity.
  split; [exact Hstart|]. split; [exact Hh|]. split; [exact Hdec|].
  split; [exact Hnext|]. split; [exact Hh2|]. split; [exact Hnext2|].
  exact (Auth_answers_a_challenge Sample.me base64.StdEncoding 0 false false true true s
           "CRAM-MD5" [] challenge resp2 msg64 msg Hstart Hh Hdec Hnext Hh2 Hnext2).
Defined.

Lemma Auth_returns_no_message_witness :
  let s := set_auth (Sample.session (Sample.by_verb Sample.esmtp)) ["PLAIN"; "LOGIN"] in
  let out :=
    {| end_auth := 1%nat;
       end_client :=
         fst (cmd s 30 0 (auth_line base64.StdEncoding "PLAIN"
                (list_byte_of_string (String zero ("user" +:+ String zero "secret")))));
       end_result := (235, "", None);
       end_calls := [{| fromServer := list_byte_of_string "Authentication successful";
                        more := false |}] |} in
  Auth Sample.me base64.StdEncoding 1 0%nat s = Some out
  /\ msg_of (end_result out) = ""
  /\ route (end_client out) = route s /\ connTLS (end_client out) = connTLS s
  /\ ext (end_client out) = ext s /\ auth (end_client out) = auth s
  /\ tls (end_client out) = tls s.
Proof.
  intros s out.
  assert (Ha : Auth Sample.me base64.StdEncoding 1 0%nat s = Some out) by reflexivity.
  split; [exact Ha|].
  exact (Auth_returns_no_message Sample.me base64.StdEncoding 1 0%nat s out Ha).
Defined.
